(** * twitter_sentiment: the tweet normaliser and the label tables

    A shallow embedding of the original logic of [twitter_sentiment.ipynb]:
    the function [lite_parser] of the second code cell, and the dictionaries
    [xmap] and [sent_map] that connect the labels of the sample file with the
    labels of the classifier.

    The notebook records its interpreter ("Python 3.10.0").  A Python [str] is
    a sequence of Unicode code points; it is embedded as a list of code
    points, so that the non-ASCII white space that [str.split] and
    [str.strip] remove, and the characters that [html.unescape] may produce,
    are all in the domain of the theorems. *)

From Stdlib Require Import NArith List String Ascii Lia.
From stdpp Require Import gmap strings.

Local Open Scope N_scope.

(** ** Python strings *)

Abbreviation pystr := (list N).

(** The code point of an ASCII character, and a literal of the source. *)
Definition chr (a : ascii) : N := N_of_ascii a.
Definition str (s : string) : pystr := map chr (list_ascii_of_string s).

(** What a Python call can raise in the modelled fragment. *)
Inductive exn :=
| ValueError (msg : string)
| KeyError (key : pystr)
| IndexError.

Inductive result (A : Type) :=
| Ok (a : A)
| Raise (e : exn).
Arguments Ok {A} a.
Arguments Raise {A} e.

Definition bind {A B} (r : result A) (k : A -> result B) : result B :=
  match r with
  | Ok a => k a
  | Raise e => Raise e
  end.

(** ** [str] methods *)

(** [str.isspace] on one character: the white space of the Unicode database,
    the set that CPython's [_PyUnicode_IsWhitespace] lists. *)
Definition isspace (c : N) : bool :=
  ((0x09 <=? c) && (c <=? 0x0D)) || ((0x1C <=? c) && (c <=? 0x20))
  || (c =? 0x85) || (c =? 0xA0) || (c =? 0x1680)
  || ((0x2000 <=? c) && (c <=? 0x200A))
  || (c =? 0x2028) || (c =? 0x2029) || (c =? 0x202F) || (c =? 0x205F)
  || (c =? 0x3000).

(** [s.split()]: the maximal runs of characters that are not white space.
    [cur] is the run being read. *)
Fixpoint split_ws (cur s : pystr) : list pystr :=
  match s with
  | [] => match cur with [] => [] | _ => [cur] end
  | c :: s' =>
      if isspace c
      then match cur with [] => split_ws [] s' | _ => cur :: split_ws [] s' end
      else split_ws (cur ++ [c]) s'
  end.

Definition str_split (s : pystr) : list pystr := split_ws [] s.

(** [s.strip()]: white space removed at both ends. *)
Fixpoint lstrip (s : pystr) : pystr :=
  match s with
  | [] => []
  | c :: s' => if isspace c then lstrip s' else s
  end.

Definition rstrip (s : pystr) : pystr := rev (lstrip (rev s)).

Definition str_strip (s : pystr) : pystr := rstrip (lstrip s).

(** [sep.join(l)]. *)
Fixpoint str_join (sep : pystr) (l : list pystr) : pystr :=
  match l with
  | [] => []
  | x :: l' => match l' with [] => x | _ => x ++ sep ++ str_join sep l' end
  end.

Fixpoint starts_with (p s : pystr) : bool :=
  match p, s with
  | [], _ => true
  | _ :: _, [] => false
  | a :: p', b :: s' => (a =? b) && starts_with p' s'
  end.

(** [s.split(sep)] for a separator that is not empty: the pieces between the
    occurrences of [sep], read from the left and not overlapping.  [skip]
    counts the characters of an occurrence still to pass. *)
Fixpoint split_at (sep : pystr) (skip : nat) (cur s : pystr) : list pystr :=
  match s with
  | [] => [cur]
  | c :: s' =>
      match skip with
      | S k => split_at sep k cur s'
      | O =>
          if starts_with sep s
          then cur :: split_at sep (Nat.pred (length sep)) [] s'
          else split_at sep 0 (cur ++ [c]) s'
      end
  end.

(** [s.split(sep)]; Python raises [ValueError] on an empty separator. *)
Definition str_split_sep (s sep : pystr) : result (list pystr) :=
  match sep with
  | [] => Raise (ValueError "empty separator")
  | _ => Ok (split_at sep 0 [] s)
  end.

(** ** Regular expressions

    The constructs of [re] that the five patterns of [lite_parser] use: the
    anchor [^] (no [MULTILINE] flag: the start of the string only), a
    character class alone or under the greedy [*] or [+], in sequence. *)

Inductive cls :=
| Lit (c : N)                 (* a literal character, escaped or not *)
| Dot                         (* [.]: any character but a newline *)
| Digit                       (* [\d] *)
| NotIn (set : list (N * N)). (* [[^...]], the set as inclusive ranges *)

Inductive node :=
| Bol
| One (k : cls)
| Star (k : cls)
| Plus (k : cls).

Definition regex := list node.

Definition in_ranges (set : list (N * N)) (c : N) : bool :=
  existsb (fun r => (fst r <=? c) && (c <=? snd r)) set.

Section Library.

(** Two tables of the Python runtime are left open.

    [html.unescape(s)] of the standard library is
    [[
      if '&' not in s: return s
      return _charref.sub(_replace_charref, s)
    ]]
    and [charref_sub] stands for its second line, the substitution of the
    character references by the HTML5 entity table; on the interpreter of
    the notebook it returns a string for every string.

    [\d] in a [str] pattern is a decimal digit of the Unicode database
    (category Nd); [uni_decimal] is that category outside ASCII, where it
    depends on the version of the database. *)
Variable charref_sub : pystr -> pystr.
Variable uni_decimal : N -> bool.

Definition html_unescape (s : pystr) : pystr :=
  if existsb (N.eqb (chr "&")) s then charref_sub s else s.

Definition is_decimal (c : N) : bool :=
  if c <? 128 then (chr "0" <=? c) && (c <=? chr "9") else uni_decimal c.

Definition cls_match (k : cls) (c : N) : bool :=
  match k with
  | Lit d => c =? d
  | Dot => negb (c =? 10)
  | Digit => is_decimal c
  | NotIn set => negb (in_ranges set c)
  end.

(** Greedy repetition with backtracking: one more character first, and the
    rest of the pattern [k] from here when that fails. *)
Fixpoint star (p : N -> bool) (k : bool -> pystr -> option nat)
    (bol : bool) (s : pystr) : option nat :=
  match s with
  | [] => k bol s
  | c :: s' =>
      if p c
      then match star p k false s' with
           | Some n => Some (S n)
           | None => k bol s
           end
      else k bol s
  end.

(** The length of the match of [re] at the head of [s], if there is one;
    [bol] says that [s] is the whole string. *)
Fixpoint match_here (re : regex) (bol : bool) (s : pystr) : option nat :=
  match re with
  | [] => Some O
  | Bol :: re' => if bol then match_here re' bol s else None
  | One k :: re' =>
      match s with
      | c :: s' =>
          if cls_match k c then option_map S (match_here re' false s') else None
      | [] => None
      end
  | Star k :: re' => star (cls_match k) (match_here re') bol s
  | Plus k :: re' =>
      match s with
      | c :: s' =>
          if cls_match k c
          then option_map S (star (cls_match k) (match_here re') false s')
          else None
      | [] => None
      end
  end.

(** [re.sub(re, repl, s)] for a replacement without backslash: every match,
    from the left and not overlapping, is replaced by [repl]; an empty match
    inserts [repl].  [skip] counts the matched characters still to pass. *)
Fixpoint sub_scan (re : regex) (repl : pystr) (bol : bool) (skip : nat)
    (s : pystr) : pystr :=
  match s with
  | [] =>
      match skip, match_here re bol [] with
      | O, Some _ => repl
      | _, _ => []
      end
  | c :: s' =>
      match skip with
      | S k => sub_scan re repl false k s'
      | O =>
          match match_here re bol s with
          | Some (S n) => repl ++ sub_scan re repl false n s'
          | Some O => repl ++ c :: sub_scan re repl false 0 s'
          | None => c :: sub_scan re repl false 0 s'
          end
      end
  end.

Definition re_sub (re : regex) (repl s : pystr) : pystr :=
  sub_scan re repl true 0 s.

(** ** The normaliser *)

(** ['^http.*'] *)
Definition re_link : regex :=
  [Bol; One (Lit (chr "h")); One (Lit (chr "t")); One (Lit (chr "t"));
   One (Lit (chr "p")); Star Dot].

(** ['^\@.*'] *)
Definition re_mention : regex := [Bol; One (Lit (chr "@")); Star Dot].

(** ['^\$.*'] *)
Definition re_cashtag : regex := [Bol; One (Lit (chr "$")); Star Dot].

(** ['^\d+\.*\d+'] *)
Definition re_number : regex :=
  [Bol; Plus Digit; Star (Lit (chr ".")); Plus Digit].

(** ["[^a-zA-Z@#$0-9.,!?']"] *)
Definition allowed_set : list (N * N) :=
  [(chr "a", chr "z"); (chr "A", chr "Z"); (chr "@", chr "@");
   (chr "#", chr "#"); (chr "$", chr "$"); (chr "0", chr "9");
   (chr ".", chr "."); (chr ",", chr ","); (chr "!", chr "!");
   (chr "?", chr "?"); (chr "'", chr "'")].

Definition re_blunt : regex := [One (NotIn allowed_set)].

(** [lite_parser], line by line. *)
Definition lite_parser (post : pystr) : result pystr :=
  let post := html_unescape post in
  let t_post := str_split post in
  let t_post := map (re_sub re_link (str "#link")) t_post in
  let t_post := map (re_sub re_mention (str "@mention")) t_post in
  let t_post := map (re_sub re_cashtag (str "$cashtag")) t_post in
  let t_post := map (re_sub re_number (str "#number")) t_post in
  let t_post := map (re_sub re_blunt (str " ")) t_post in
  bind
    (str_split_sep
      (str_strip
         (str_join (str " ")
            (map str_strip
               (List.filter (fun z => (0 <? length (str_strip z))%nat) t_post))))
      (str "\w+"))
    (fun t_post => Ok (str_join (str " ") t_post)).

End Library.

(** The characters that the last pattern keeps. *)
Definition allowed (c : N) : bool := in_ranges allowed_set c.

(** The characters of a normalised post: the allowed ones and the space. *)
Definition in_output_set (c : N) : Prop := allowed c = true \/ c = chr " ".

(** The four uniform rewrites of one word, in the order of the source. *)
Definition uniform (uni_decimal : N -> bool) (z : pystr) : pystr :=
  re_sub uni_decimal re_number (str "#number")
    (re_sub uni_decimal re_cashtag (str "$cashtag")
       (re_sub uni_decimal re_mention (str "@mention")
          (re_sub uni_decimal re_link (str "#link") z))).

(** [lite_parser] as the specification reads its last line: the words joined
    and stripped, without the [.split('\w+')] and the join that undoes it. *)
Definition lite_parser_nosplit (charref_sub : pystr -> pystr)
    (uni_decimal : N -> bool) (post : pystr) : pystr :=
  let post := html_unescape charref_sub post in
  let t_post := str_split post in
  let t_post := map (re_sub uni_decimal re_link (str "#link")) t_post in
  let t_post := map (re_sub uni_decimal re_mention (str "@mention")) t_post in
  let t_post := map (re_sub uni_decimal re_cashtag (str "$cashtag")) t_post in
  let t_post := map (re_sub uni_decimal re_number (str "#number")) t_post in
  let t_post := map (re_sub uni_decimal re_blunt (str " ")) t_post in
  str_strip
    (str_join (str " ")
       (map str_strip
          (List.filter (fun z => (0 <? length (str_strip z))%nat) t_post))).

(** ** The label tables *)

(** The three sentiments, and the label string the classifier prints for
    each. *)
Inductive sentiment := positive | negative | neutral.

Definition label_str (c : sentiment) : pystr :=
  match c with
  | positive => str "positive"
  | negative => str "negative"
  | neutral => str "neutral"
  end.

(** [d[k]] on a dictionary with string keys: [KeyError] on a missing key. *)
Definition getitem {V} (d : gmap pystr V) (k : pystr) : result V :=
  match d !! k with
  | Some v => Ok v
  | None => Raise (KeyError k)
  end.

(** [xmap = {'neutral': 2,'positive': 1,'negative': 0}] *)
Definition xmap : gmap pystr Z :=
  list_to_map
    [(str "neutral", 2%Z); (str "positive", 1%Z); (str "negative", 0%Z)].

(** [y_predict = [xmap[z['label']] for z in classified]], on the labels. *)
Fixpoint y_predict (labels : list pystr) : result (list Z) :=
  match labels with
  | [] => Ok []
  | l :: ls =>
      bind (getitem xmap l) (fun y =>
      bind (y_predict ls) (fun ys => Ok (y :: ys)))
  end.

(** The table that reads [xmap] backwards,
    [{v: k for k, v in xmap.items()}]. *)
Definition xmap_inv : gmap Z pystr :=
  list_to_map (map (fun kv => (snd kv, fst kv)) (map_to_list xmap)).

(** "0 is negative, 1 is positive, and 2 is neutral": the labels of
    [in/jfr_sample.txt]. *)
Definition dataset_label : gmap Z sentiment :=
  list_to_map [(0%Z, negative); (1%Z, positive); (2%Z, neutral)].

(** [model.config.id2label], as the notebook printed it:
    [dict_items([(0, 'positive'), (1, 'negative'), (2, 'neutral')])]. *)
Definition id2label : gmap Z pystr :=
  list_to_map
    [(0%Z, str "positive"); (1%Z, str "negative"); (2%Z, str "neutral")].

(** [sent_map = {1:0,0:1,2:2}] *)
Definition sent_map : gmap Z Z :=
  list_to_map [(1%Z, 0%Z); (0%Z, 1%Z); (2%Z, 2%Z)].

(** ** The rest of the notebook *)

(** One word of [t_post] through the five [re.sub] and [z.strip()]. *)
Definition norm_word (uni_decimal : N -> bool) (z : pystr) : pystr :=
  str_strip (re_sub uni_decimal re_blunt (str " ") (uniform uni_decimal z)).

(** [len(z) > 0] *)
Definition nonempty (z : pystr) : bool := (0 <? length z)%nat.

(** The length of the longest prefix of [s] whose characters satisfy [p]. *)
Fixpoint count_while (p : N -> bool) (s : pystr) : nat :=
  match s with
  | [] => O
  | c :: s' => if p c then S (count_while p s') else O
  end.

(** What ['^\d+\.*\d+'] matches, said without backtracking: [k] digits,
    [m] dots and [k2] digits when digits follow the dots ([k2 > 0]); and
    when none do, the [k] digits alone if they are two at least. *)
Definition number_prefix (uni_decimal : N -> bool) (s : pystr) : option nat :=
  let k := count_while (is_decimal uni_decimal) s in
  let s1 := skipn k s in
  let m := count_while (fun c => c =? chr ".") s1 in
  let k2 := count_while (is_decimal uni_decimal) (skipn m s1) in
  if (0 <? k)%nat && (0 <? k2)%nat then Some (k + m + k2)%nat
  else if (2 <=? k)%nat then Some k
  else None.

(** [tokenizer.add_tokens(['#link', '@mention', '$cashtag', '#number'])] *)
Definition added_tokens : list pystr :=
  [str "#link"; str "@mention"; str "$cashtag"; str "#number"].

(** [df['label'].map(sent_map)]: pandas looks every value up in the
    dictionary and writes NaN, here [None], where the key is missing; NaN
    stays NaN. *)
Definition series_map (d : gmap Z Z) (col : list (option Z)) : list (option Z) :=
  map (fun x => match x with Some v => d !! v | None => None end) col.

(** ** [html.unescape] written out

    The function of the standard library's [html] module, with the calls
    of it that can raise: [int], [chr] and the indexing of the matched
    text.  Its three tables are left open, and so is the limit that the
    interpreter puts on the digits of a decimal string given to [int]:
    there is none on the interpreter the notebook records (3.10.0), and
    CPython has one of 4300 digits by default from 3.10.7 on
    ([sys.int_info.default_max_str_digits]). *)

Definition is_ascii_digit (c : N) : bool := (chr "0" <=? c) && (c <=? chr "9").

Definition is_hex_digit (c : N) : bool :=
  is_ascii_digit c || ((chr "a" <=? c) && (c <=? chr "f"))
  || ((chr "A" <=? c) && (c <=? chr "F")).

(** [[^\t\n\f <&#;]] *)
Definition is_name_char (c : N) : bool :=
  negb ((c =? 9) || (c =? 10) || (c =? 12) || (c =? chr " ") || (c =? chr "<")
        || (c =? chr "&") || (c =? chr "#") || (c =? chr ";")).

Fixpoint take_while (p : N -> bool) (s : pystr) : pystr :=
  match s with
  | [] => []
  | c :: s' => if p c then c :: take_while p s' else []
  end.

Fixpoint drop_while (p : N -> bool) (s : pystr) : pystr :=
  match s with
  | [] => []
  | c :: s' => if p c then drop_while p s' else s
  end.

(** [s.rstrip(x)] for one character [x]. *)
Definition rstrip_char (x : N) (s : pystr) : pystr :=
  rev (drop_while (N.eqb x) (rev s)).

Definition digit_value (c : N) : N :=
  if is_ascii_digit c then c - chr "0"
  else if (chr "a" <=? c) && (c <=? chr "f") then c - chr "a" + 10
  else c - chr "A" + 10.

Definition int_of_digits (base : N) (ds : pystr) : N :=
  fold_left (fun acc d => acc * base + digit_value d) ds 0.

(** [chr(n)] *)
Definition py_chr (n : N) : result pystr :=
  if n <=? 0x10FFFF then Ok [n]
  else Raise (ValueError "chr() arg not in range(0x110000)").

(** [;?] at the head of [s]. *)
Definition opt_semi (s : pystr) : pystr :=
  match s with
  | c :: _ => if c =? chr ";" then [c] else []
  | [] => []
  end.

Section HtmlUnescape.

Variable html5 : gmap pystr pystr.          (* [html.entities.html5] *)
Variable invalid_charrefs : gmap N pystr.   (* [_invalid_charrefs] *)
Variable invalid_codepoints : N -> bool.    (* [num in _invalid_codepoints] *)
Variable max_str_digits : option nat.       (* [None]: [int] has no limit *)

Definition within_limit (n : nat) : bool :=
  match max_str_digits with
  | Some l => (n <=? l)%nat
  | None => true
  end.

(** [int(ds)] and [int(ds, 16)] on a string of digits; a string that is
    empty or holds another character is an invalid literal here. *)
Definition py_int10 (ds : pystr) : result N :=
  match ds with
  | [] => Raise (ValueError "invalid literal for int() with base 10")
  | _ =>
      if negb (forallb is_ascii_digit ds)
      then Raise (ValueError "invalid literal for int() with base 10")
      else if within_limit (length ds) then Ok (int_of_digits 10 ds)
      else Raise (ValueError "Exceeds the limit for integer string conversion")
  end.

Definition py_int16 (ds : pystr) : result N :=
  match ds with
  | [] => Raise (ValueError "invalid literal for int() with base 16")
  | _ =>
      if negb (forallb is_hex_digit ds)
      then Raise (ValueError "invalid literal for int() with base 16")
      else Ok (int_of_digits 16 ds)
  end.

(** The numeric branch of [_replace_charref], from [num] on. *)
Definition numeric_charref (num : N) : result pystr :=
  match invalid_charrefs !! num with
  | Some r => Ok r
  | None =>
      if ((0xD800 <=? num) && (num <=? 0xDFFF)) || (0x10FFFF <? num)
      then Ok [0xFFFD]
      else if invalid_codepoints num then Ok []
      else py_chr num
  end.

(** [for x in range(len(s)-1, 1, -1)]: the longest name that is a prefix
    of [s], of two characters at least. *)
Fixpoint named_prefix (s : pystr) (x : nat) : pystr :=
  match x with
  | O => chr "&" :: s
  | S x' =>
      if (1 <? x)%nat
      then match html5 !! firstn x s with
           | Some r => r ++ skipn x s
           | None => named_prefix s x'
           end
      else chr "&" :: s
  end.

(** [_replace_charref], on the text of group 1. *)
Definition replace_charref (s : pystr) : result pystr :=
  match s with
  | [] => Raise IndexError
  | c :: rest =>
      if c =? chr "#"
      then match rest with
           | [] => Raise IndexError
           | x :: rest' =>
               bind (if (x =? chr "x") || (x =? chr "X")
                     then py_int16 (rstrip_char (chr ";") rest')
                     else py_int10 (rstrip_char (chr ";") rest))
                    numeric_charref
           end
      else match html5 !! s with
           | Some r => Ok r
           | None => Ok (named_prefix s (length s - 1))
           end
  end.

(** Group 1 of [_charref],
    [&(#[0-9]+;?|#[xX][0-9a-fA-F]+;?|[^\t\n\f <&#;]{1,32};?)], matched on the
    text [s] behind an [&]: the alternatives in their order, each
    repetition as long as it can be. *)
Definition charref_group (s : pystr) : option pystr :=
  let name := firstn 32 (take_while is_name_char s) in
  let alt3 :=
    match name with
    | [] => None
    | _ => Some (name ++ opt_semi (skipn (length name) s))
    end in
  match s with
  | [] => None
  | c :: r =>
      if c =? chr "#"
      then match take_while is_ascii_digit r with
           | [] =>
               match r with
               | [] => alt3
               | x :: r' =>
                   if (x =? chr "x") || (x =? chr "X")
                   then match take_while is_hex_digit r' with
                        | [] => alt3
                        | hs => Some (c :: x :: hs ++ opt_semi (skipn (length hs) r'))
                        end
                   else alt3
               end
           | ds => Some (c :: ds ++ opt_semi (skipn (length ds) r))
           end
      else alt3
  end.

(** [_charref.sub(_replace_charref, s)]: the matches from the left, each
    one replaced by what [_replace_charref] returns; an error of the
    function ends the substitution.  [skip] counts the matched characters
    still to pass. *)
Fixpoint charref_sub_run (skip : nat) (s : pystr) : result pystr :=
  match s with
  | [] => Ok []
  | c :: s' =>
      match skip with
      | S k => charref_sub_run k s'
      | O =>
          match (if c =? chr "&" then charref_group s' else None) with
          | Some g =>
              bind (replace_charref g) (fun r =>
              bind (charref_sub_run (length g) s') (fun rest =>
              Ok (r ++ rest)))
          | None =>
              bind (charref_sub_run 0 s') (fun rest => Ok (c :: rest))
          end
      end
  end.

(** [html.unescape] *)
Definition html_unescape_run (s : pystr) : result pystr :=
  if existsb (N.eqb (chr "&")) s then charref_sub_run 0 s else Ok s.

(** [lite_parser] with its first line run through [html_unescape_run]:
    when that returns [p], the rest is [lite_parser] with [p] for what
    [html.unescape] returned. *)
Definition lite_parser_run (uni_decimal : N -> bool) (post : pystr)
    : result pystr :=
  bind (html_unescape_run post)
       (fun p => lite_parser (fun _ => p) uni_decimal post).

(** No [&#] of [s] is followed by more decimal digits than [int] takes. *)
Fixpoint short_refs (s : pystr) : bool :=
  match s with
  | [] => true
  | c :: s' =>
      (if c =? chr "&"
       then match s' with
            | h :: r =>
                if h =? chr "#"
                then within_limit (length (take_while is_ascii_digit r))
                else true
            | [] => true
            end
       else true)
      && short_refs s'
  end.

End HtmlUnescape.

(** * Properties *)

(** ** Characters *)

Ltac chars :=
  cbv [allowed in_ranges allowed_set existsb isspace chr N_of_ascii
       N_of_digits fst snd] in *;
  repeat match goal with
         | H : _ = false |- _ => apply Bool.not_true_iff_false in H
         | |- _ = false => apply Bool.not_true_iff_false
         end;
  rewrite ?Bool.orb_true_iff, ?Bool.andb_true_iff, ?Bool.orb_false_r,
    ?N.leb_le, ?N.eqb_eq in *;
  try lia.

Lemma allowed_not_space c : allowed c = true -> isspace c = false.
Proof. intros H. chars. Qed.

Lemma space_not_allowed c : isspace c = true -> allowed c = false.
Proof. intros H. chars. Qed.

(** ** [str.split()] *)

Lemma split_ws_Forall (P : N -> Prop) s : forall cur,
  Forall P cur ->
  Forall (fun c => isspace c = false -> P c) s ->
  Forall (fun t => t <> [] /\ Forall P t) (split_ws cur s).
Proof.
  induction s as [|c s IH]; intros cur Hcur Hs; simpl.
  - destruct cur; constructor; [split; [discriminate | assumption] | constructor].
  - inversion Hs as [|? ? Hc Hs']; subst.
    destruct (isspace c) eqn:E.
    + destruct cur as [|a cur].
      * apply IH; [constructor | assumption].
      * constructor; [split; [discriminate | assumption] |].
        apply IH; [constructor | assumption].
    + apply IH; [| assumption].
      apply Forall_app; split; [assumption |].
      constructor; [auto | constructor].
Qed.

(** The words of [s.split()] are not empty and hold no white space. *)
Lemma str_split_words s :
  Forall (fun t => t <> [] /\ Forall (fun c => isspace c = false) t)
    (str_split s).
Proof.
  apply split_ws_Forall; [constructor |].
  apply Forall_forall; auto.
Qed.

Lemma split_ws_spaces s : Forall (fun c => isspace c = true) s -> split_ws [] s = [].
Proof.
  induction 1 as [|c s Hc _ IH]; simpl; [reflexivity |].
  rewrite Hc. assumption.
Qed.

Lemma split_ws_word t : forall cur s,
  Forall (fun c => isspace c = false) t ->
  split_ws cur (t ++ s) = split_ws (cur ++ t) s.
Proof.
  induction t as [|c t IH]; intros cur s Ht; simpl.
  - now rewrite app_nil_r.
  - inversion Ht as [|? ? Hc Ht']; subst. rewrite Hc.
    rewrite IH by assumption. now rewrite <- app_assoc.
Qed.

(** Words joined by one space are split back into the same words. *)
Lemma str_split_join ts :
  Forall (fun t => t <> [] /\ Forall (fun c => isspace c = false) t) ts ->
  str_split (str_join (str " ") ts) = ts.
Proof.
  unfold str_split.
  induction 1 as [|t ts [Hne Ht] Hts IH]; [reflexivity |].
  cbn [str_join]. destruct ts as [|t' ts].
  - pose proof (split_ws_word t [] [] Ht) as E.
    rewrite app_nil_r in E. rewrite E.
    simpl. destruct t; [congruence | reflexivity].
  - rewrite split_ws_word by assumption.
    change (str " " ++ ?x) with (32 :: x). cbn [split_ws app].
    change (isspace 32) with true. cbn iota.
    rewrite IH. destruct t; [congruence | reflexivity].
Qed.

(** ** [str.strip()] *)

Lemma last_rev_head (s : pystr) : last (rev s) = head s.
Proof. destruct s as [|a s]; [reflexivity |]. simpl. apply last_snoc. Qed.

Lemma head_rev_last (s : pystr) : head (rev s) = last s.
Proof. now rewrite <- (rev_involutive s) at 2; rewrite last_rev_head. Qed.

Lemma lstrip_suffix s : exists p, s = p ++ lstrip s.
Proof.
  induction s as [|c s [p IH]]; simpl; [now exists [] |].
  destruct (isspace c); [| now exists []].
  exists (c :: p). simpl. now f_equal.
Qed.

Lemma lstrip_Forall (P : N -> Prop) s : Forall P s -> Forall P (lstrip s).
Proof.
  intros H. destruct (lstrip_suffix s) as [p Hp].
  rewrite Hp in H. now apply Forall_app in H.
Qed.

Lemma str_strip_Forall (P : N -> Prop) s : Forall P s -> Forall P (str_strip s).
Proof.
  intros H. unfold str_strip, rstrip.
  apply Forall_rev, lstrip_Forall, Forall_rev, lstrip_Forall, H.
Qed.

Lemma lstrip_head s c : head (lstrip s) = Some c -> isspace c = false.
Proof.
  induction s as [|a s IH]; simpl; [discriminate |].
  destruct (isspace a) eqn:E; [assumption |].
  simpl. intros [= ->]. assumption.
Qed.

Lemma lstrip_snoc s c : isspace c = false -> lstrip (s ++ [c]) = lstrip s ++ [c].
Proof.
  intros Hc. induction s as [|a s IH]; simpl.
  - now rewrite Hc.
  - destruct (isspace a); [assumption | reflexivity].
Qed.

Lemma lstrip_id s :
  (forall c, head s = Some c -> isspace c = false) -> lstrip s = s.
Proof.
  destruct s as [|a s]; simpl; intros H; [reflexivity |].
  now rewrite (H a eq_refl).
Qed.

Lemma str_strip_head s c : head (str_strip s) = Some c -> isspace c = false.
Proof.
  unfold str_strip, rstrip.
  destruct (lstrip s) as [|a u] eqn:E; [discriminate |].
  assert (Ha : isspace a = false) by (apply (lstrip_head s); now rewrite E).
  simpl rev. rewrite lstrip_snoc, rev_app_distr by assumption.
  simpl. intros [= <-]. assumption.
Qed.

Lemma str_strip_last s c : last (str_strip s) = Some c -> isspace c = false.
Proof.
  unfold str_strip, rstrip. rewrite last_rev_head. apply lstrip_head.
Qed.

Lemma str_strip_id s :
  (forall c, head s = Some c -> isspace c = false) ->
  (forall c, last s = Some c -> isspace c = false) ->
  str_strip s = s.
Proof.
  intros Hh Hl. unfold str_strip, rstrip.
  rewrite (lstrip_id s Hh), lstrip_id, rev_involutive; [reflexivity |].
  intros c Hc. apply Hl. now rewrite <- head_rev_last.
Qed.

Lemma str_strip_word t : Forall (fun c => isspace c = false) t -> str_strip t = t.
Proof.
  intros H. apply str_strip_id; intros c Hc.
  - apply head_Some_elem_of in Hc. rewrite Forall_forall in H. auto.
  - apply last_Some_elem_of in Hc. rewrite Forall_forall in H. auto.
Qed.

(** ** [str.join] and [str.split(sep)] *)

Lemma str_join_Forall (P : N -> Prop) sep l :
  Forall P sep -> Forall (Forall P) l -> Forall P (str_join sep l).
Proof.
  intros Hsep. induction 1 as [|x l Hx Hl IH]; [constructor |].
  cbn [str_join]. destruct l; [assumption |].
  repeat (apply Forall_app; split); assumption.
Qed.

Lemma str_join_head sep t ts c :
  t <> [] -> head (str_join sep (t :: ts)) = Some c -> head t = Some c.
Proof.
  intros Hne. cbn [str_join].
  destruct t as [|a t]; [congruence |]. now destruct ts.
Qed.

Lemma str_join_last sep ts : forall t c,
  Forall (fun t => t <> []) (t :: ts) ->
  last (str_join sep (t :: ts)) = Some c ->
  exists u, In u (t :: ts) /\ last u = Some c.
Proof.
  induction ts as [|t' ts IH]; intros t c Hne Hc.
  - exists t. split; [now left | exact Hc].
  - inversion Hne as [|? ? _ Hne']; subst.
    change (str_join sep (t :: t' :: ts))
      with (t ++ sep ++ str_join sep (t' :: ts)) in Hc.
    rewrite !last_app in Hc.
    destruct (last (str_join sep (t' :: ts))) as [d|] eqn:E.
    + destruct (IH t' d Hne' E) as (u & Hu & Hd).
      exists u. split; [now right | congruence].
    + apply last_None in E.
      inversion Hne' as [|? ? Ht' _]; subst.
      cbn [str_join] in E. destruct t'; [congruence |].
      destruct ts; discriminate.
Qed.

(** Words joined by [sep] begin and end as words do. *)
Lemma str_join_words_strip ts :
  Forall (fun t => t <> [] /\ Forall (fun c => isspace c = false) t) ts ->
  str_strip (str_join (str " ") ts) = str_join (str " ") ts.
Proof.
  intros H. destruct ts as [|t ts]; [reflexivity |].
  assert (Hne : Forall (fun t : pystr => t <> []) (t :: ts))
    by (eapply Forall_impl; [exact H | now intros ? []]).
  rewrite List.Forall_forall in H.
  apply str_strip_id; intros c Hc.
  - destruct (H t (or_introl eq_refl)) as [Ht Hw].
    apply str_join_head in Hc; [| assumption].
    apply head_Some_elem_of in Hc. rewrite Forall_forall in Hw. auto.
  - destruct (str_join_last _ _ _ _ Hne Hc) as (u & Hu & Hl).
    destruct (H u Hu) as [_ Hw].
    apply last_Some_elem_of in Hl. rewrite Forall_forall in Hw. auto.
Qed.

Lemma split_at_absent a sep s : forall cur,
  ~ In a s -> split_at (a :: sep) 0 cur s = [cur ++ s].
Proof.
  induction s as [|c s IH]; intros cur Hin; simpl.
  - now rewrite app_nil_r.
  - destruct (N.eqb_spec a c) as [->|Hne]; [exfalso; apply Hin; now left |].
    simpl. rewrite IH by (intros H; apply Hin; now right).
    now rewrite <- app_assoc.
Qed.

(** Splitting at a separator that does not occur and joining again. *)
Lemma split_join_absent a sep s :
  ~ In a s ->
  bind (str_split_sep s (a :: sep)) (fun l => Ok (str_join (str " ") l)) = Ok s.
Proof.
  intros H. unfold str_split_sep. cbn [bind].
  now rewrite split_at_absent.
Qed.

(** ** [re.sub] *)

Section Patterns.

Variable ud : N -> bool.

(** Past the start of the string an anchored pattern matches nowhere. *)
Lemma sub_scan_anchored re repl s : forall skip,
  sub_scan ud (Bol :: re) repl false skip s = skipn skip s.
Proof.
  induction s as [|c s IH]; intros [|k]; simpl; try reflexivity.
  - now rewrite IH.
  - apply IH.
Qed.

(** An anchored pattern replaces its match at the start, if there is one. *)
Lemma re_sub_anchored re repl s :
  re_sub ud (Bol :: re) repl s =
  match match_here ud re true s with
  | Some n => repl ++ skipn n s
  | None => s
  end.
Proof.
  unfold re_sub. destruct s as [|c s]; simpl.
  - destruct (match_here ud re true []) as [n|]; [| reflexivity].
    now rewrite skipn_nil, app_nil_r.
  - destruct (match_here ud re true (c :: s)) as [[|n]|];
      now rewrite sub_scan_anchored.
Qed.

Lemma star_all (p : N -> bool) s : forall b,
  Forall (fun c => p c = true) s ->
  star p (match_here ud []) b s = Some (length s).
Proof.
  induction s as [|c s IH]; intros b H; [reflexivity |].
  inversion H as [|? ? Hc Hs]; subst. simpl.
  now rewrite Hc, IH.
Qed.

(** A literal prefix followed by [.*], on a string without newline. *)
Lemma match_prefix_dot p : forall s b,
  Forall (fun c => c <> 10) s ->
  match_here ud (map (fun a => One (Lit a)) p ++ [Star Dot]) b s =
  if starts_with p s then Some (length s) else None.
Proof.
  induction p as [|a p IH]; intros s b Hs.
  - simpl. destruct s; apply star_all; [constructor |].
    eapply Forall_impl; [exact Hs |].
    intros x Hx. simpl. now destruct (N.eqb_spec x 10).
  - destruct s as [|c s]; [reflexivity |].
    inversion Hs; subst. cbn [map app match_here cls_match starts_with].
    rewrite (N.eqb_sym a c). destruct (c =? a); [| reflexivity].
    rewrite IH by assumption. simpl. now destruct (starts_with p s).
Qed.

Lemma re_sub_prefix_dot p repl s :
  Forall (fun c => c <> 10) s ->
  re_sub ud (Bol :: map (fun a => One (Lit a)) p ++ [Star Dot]) repl s =
  if starts_with p s then repl else s.
Proof.
  intros Hs. rewrite re_sub_anchored, match_prefix_dot by assumption.
  destruct (starts_with p s); [| reflexivity].
  now rewrite skipn_all, app_nil_r.
Qed.

(** The character filter, character by character. *)
Lemma re_sub_blunt s :
  re_sub ud re_blunt (str " ") s = map (fun c => if allowed c then c else 32) s.
Proof.
  unfold re_sub. change (str " ") with [32]. generalize true.
  induction s as [|c s IH]; intros b; [reflexivity |].
  cbn [sub_scan match_here re_blunt cls_match map].
  fold (allowed c). destruct (allowed c); cbn [negb option_map app];
    now rewrite IH.
Qed.

End Patterns.

(** ** The uniform rewrites of a word *)

Section Uniform.

Variable ud : N -> bool.

Lemma re_sub_lit_miss a re repl c s :
  c <> a -> re_sub ud (Bol :: One (Lit a) :: re) repl (c :: s) = c :: s.
Proof.
  intros H. rewrite re_sub_anchored. simpl.
  now destruct (N.eqb_spec c a).
Qed.

Lemma re_sub_digit_miss re repl c s :
  is_decimal ud c = false ->
  re_sub ud (Bol :: Plus Digit :: re) repl (c :: s) = c :: s.
Proof. intros H. rewrite re_sub_anchored. simpl. now rewrite H. Qed.

(** The number pattern on a few words: the first [\d+] gives back a digit
    to the last one when no digit follows the dots. *)
Example re_sub_number_words :
  map (re_sub ud re_number (str "#number"))
    [str "100.5"; str "2021"; str "12."; str "1..5z"; str "1.5.2";
     str "7.x"; str "5"; str "5x"; str "x5"]
  = [str "#number"; str "#number"; str "#number."; str "#numberz";
     str "#number.2"; str "7.x"; str "5"; str "5x"; str "x5"].
Proof. vm_compute. reflexivity. Qed.

(** A lone leading digit, with nothing or with neither a digit nor a dot
    behind it, is no match of the number pattern. *)
Lemma re_sub_number_lone_digit repl c s :
  (forall d, head s = Some d -> is_decimal ud d = false /\ d <> chr ".") ->
  re_sub ud re_number repl (c :: s) = c :: s.
Proof.
  intros H. unfold re_number. rewrite re_sub_anchored.
  cbn [match_here cls_match].
  destruct (is_decimal ud c); [| reflexivity].
  destruct s as [|d s]; [reflexivity |].
  destruct (H d eq_refl) as [Hd Hdot].
  cbn [star match_here cls_match]. rewrite Hd.
  now destruct (N.eqb_spec d (chr ".")).
Qed.

(** A word that begins with [#] is left as it is. *)
Lemma uniform_hash s : uniform ud (chr "#" :: s) = chr "#" :: s.
Proof.
  unfold uniform, re_link, re_mention, re_cashtag, re_number.
  rewrite !re_sub_lit_miss by discriminate.
  now rewrite re_sub_digit_miss.
Qed.

Lemma uniform_cases t :
  Forall (fun c => c <> 10) t ->
  uniform ud t = str "#link" \/ uniform ud t = str "@mention" \/
  uniform ud t = str "$cashtag" \/
  (exists n, uniform ud t = str "#number" ++ skipn n t) \/
  uniform ud t = t.
Proof.
  intros Ht. unfold uniform.
  change re_link with (Bol :: map (fun a => One (Lit a)) (str "http") ++ [Star Dot]).
  rewrite re_sub_prefix_dot by assumption.
  destruct (starts_with (str "http") t); [now left |].
  change re_mention with (Bol :: map (fun a => One (Lit a)) (str "@") ++ [Star Dot]).
  rewrite re_sub_prefix_dot by assumption.
  destruct (starts_with (str "@") t); [right; now left |].
  change re_cashtag with (Bol :: map (fun a => One (Lit a)) (str "$") ++ [Star Dot]).
  rewrite re_sub_prefix_dot by assumption.
  destruct (starts_with (str "$") t); [right; right; now left |].
  unfold re_number. rewrite re_sub_anchored.
  destruct (match_here ud _ true t) as [n|]; [| now repeat right].
  right; right; right; left. now exists n.
Qed.

Lemma uniform_idem t :
  Forall (fun c => c <> 10) t -> uniform ud (uniform ud t) = uniform ud t.
Proof.
  intros Ht.
  destruct (uniform_cases t Ht) as [E|[E|[E|[[n E]|E]]]]; rewrite E;
    try reflexivity; try assumption.
  apply uniform_hash.
Qed.

Lemma allowed_not_newline t :
  Forall (fun c => allowed c = true) t -> Forall (fun c => c <> 10) t.
Proof.
  intros H. eapply Forall_impl; [exact H |].
  intros c Hc ->. discriminate.
Qed.

Lemma uniform_allowed t :
  t <> [] /\ Forall (fun c => allowed c = true) t ->
  uniform ud t <> [] /\ Forall (fun c => allowed c = true) (uniform ud t).
Proof.
  intros [Hne Ht].
  destruct (uniform_cases t (allowed_not_newline t Ht)) as [E|[E|[E|[[n E]|E]]]];
    rewrite E.
  - split; [discriminate | repeat constructor].
  - split; [discriminate | repeat constructor].
  - split; [discriminate | repeat constructor].
  - split; [discriminate |]. apply Forall_app; split; [repeat constructor |].
    now apply Forall_drop.
  - now split.
Qed.

(** On words of allowed characters the filter and the cleaning of blanks
    change nothing. *)
Lemma blanks_allowed_words ws :
  Forall (fun t => t <> [] /\ Forall (fun c => allowed c = true) t) ws ->
  map str_strip
    (List.filter (fun z => (0 <? length (str_strip z))%nat)
       (map (re_sub ud re_blunt (str " ")) ws)) = ws.
Proof.
  induction 1 as [|w ws [Hne Hw] _ IH]; [reflexivity |].
  assert (Hb : re_sub ud re_blunt (str " ") w = w).
  { rewrite re_sub_blunt. rewrite <- (map_id w) at 2.
    apply map_ext_in. intros c Hc.
    rewrite List.Forall_forall in Hw. now rewrite (Hw c Hc). }
  assert (Hs : str_strip w = w).
  { apply str_strip_word. eapply Forall_impl; [exact Hw |].
    intros c. apply allowed_not_space. }
  cbn [map List.filter]. rewrite Hb, Hs.
  destruct w as [|a w]; [congruence |].
  change (0 <? length (a :: w))%nat with true.
  cbn [map]. now rewrite Hs, IH.
Qed.

End Uniform.

(** ** [lite_parser] *)

Section Normaliser.

Variable cs : pystr -> pystr.
Variable ud : N -> bool.

Lemma html_unescape_id s : ~ In (chr "&") s -> html_unescape cs s = s.
Proof.
  intros H. unfold html_unescape.
  destruct (existsb (N.eqb (chr "&")) s) eqn:E; [| reflexivity].
  apply existsb_exists in E as (x & Hx & Hxe).
  apply N.eqb_eq in Hxe. subst. contradiction.
Qed.

Lemma Forall_list_filter {A} (P : A -> Prop) f l :
  Forall P l -> Forall P (List.filter f l).
Proof.
  induction 1 as [|x l Hx _ IH]; simpl; [constructor |].
  destruct (f x); [now constructor | assumption].
Qed.

Lemma re_sub_blunt_clean z : Forall in_output_set (re_sub ud re_blunt (str " ") z).
Proof.
  rewrite re_sub_blunt. apply List.Forall_map, List.Forall_forall.
  intros c _. destruct (allowed c) eqn:E; [now left | now right].
Qed.

(** Before the last split, the post holds allowed characters and spaces. *)
Lemma nosplit_clean post : Forall in_output_set (lite_parser_nosplit cs ud post).
Proof.
  unfold lite_parser_nosplit.
  apply str_strip_Forall, str_join_Forall; [repeat constructor; now right |].
  apply List.Forall_map, Forall_list_filter, List.Forall_map, List.Forall_forall.
  intros z _. apply str_strip_Forall, re_sub_blunt_clean.
Qed.

Lemma clean_absent a s :
  allowed a = false -> a <> chr " " -> Forall in_output_set s -> ~ In a s.
Proof.
  intros Ha Hsp Hs Hin. rewrite List.Forall_forall in Hs.
  destruct (Hs a Hin) as [H|H]; congruence.
Qed.

(** The post is the join of its rewritten words when every character of
    the words is allowed. *)
Lemma nosplit_allowed_words post :
  Forall (fun t => t <> [] /\ Forall (fun c => allowed c = true) t)
    (str_split (html_unescape cs post)) ->
  lite_parser_nosplit cs ud post =
  str_join (str " ") (map (uniform ud) (str_split (html_unescape cs post))).
Proof.
  intros H. unfold lite_parser_nosplit.
  rewrite !(map_map _ (re_sub ud re_blunt (str " "))).
  rewrite !map_map. fold (uniform ud).
  assert (Hu : Forall (fun t => t <> [] /\ Forall (fun c => allowed c = true) t)
                 (map (uniform ud) (str_split (html_unescape cs post)))).
  { apply List.Forall_map. eapply Forall_impl; [exact H |].
    intros t. apply uniform_allowed. }
  rewrite <- (map_map (uniform ud) (re_sub ud re_blunt (str " "))).
  rewrite blanks_allowed_words by assumption.
  apply str_join_words_strip.
  eapply Forall_impl; [exact Hu |].
  intros t [Hne Ht]. split; [assumption |].
  eapply Forall_impl; [exact Ht |]. intros c. apply allowed_not_space.
Qed.

(** The last line of [lite_parser] splits at nothing. *)
Lemma lite_parser_eq post :
  lite_parser cs ud post = Ok (lite_parser_nosplit cs ud post).
Proof.
  change (lite_parser cs ud post)
    with (bind (str_split_sep (lite_parser_nosplit cs ud post) (str "\w+"))
            (fun t_post => Ok (str_join (str " ") t_post))).
  apply (split_join_absent (chr "\") (str "w+")).
  apply clean_absent; [reflexivity | discriminate | apply nosplit_clean].
Qed.

Lemma clean_words r :
  Forall in_output_set r ->
  Forall (fun t => t <> [] /\ Forall (fun c => allowed c = true) t) (str_split r).
Proof.
  intros H. apply split_ws_Forall; [constructor |].
  eapply Forall_impl; [exact H |].
  intros c [Hc | ->] Hsp; [assumption | discriminate].
Qed.

Lemma lite_parser_allowed_input post :
  Forall (fun c => isspace c = true \/ allowed c = true) post ->
  lite_parser cs ud post =
  Ok (str_join (str " ") (map (uniform ud) (str_split post))).
Proof.
  intros H. rewrite lite_parser_eq. f_equal.
  assert (Hu : html_unescape cs post = post).
  { apply html_unescape_id. intros Hin. rewrite List.Forall_forall in H.
    destruct (H _ Hin); discriminate. }
  rewrite nosplit_allowed_words; rewrite Hu; [reflexivity |].
  apply split_ws_Forall; [constructor |].
  eapply Forall_impl; [exact H |].
  intros c [Hc|Hc] Hsp; [congruence | assumption].
Qed.



(** ** The properties of [lite_parser] *)

(** C2.  The separator of the last line is the three characters
    backslash, [w], [+], and no regular expression: it splits where these
    three stand and not between words.  No backslash is left after the
    character filter, so for every post the split and the join after it
    return their argument, and [lite_parser] is the pipeline without
    them. *)
Theorem lite_parser_split_is_identity :
  str "\w+" = [92; 119; 43] /\
  str_split_sep (str "a\w+b") (str "\w+") = Ok [str "a"; str "b"] /\
  str_split_sep (str "a b") (str "\w+") = Ok [str "a b"] /\
  forall post, lite_parser cs ud post = Ok (lite_parser_nosplit cs ud post).
Proof.
  repeat split. apply lite_parser_eq.
Qed.

(** C3.  For every post, [lite_parser] returns a string whose characters
    are all in the set of letters [a-z] and [A-Z], digits [0-9],
    [@ # $ . , ! ? '] and the space; its words hold allowed characters
    only, none of them a space. *)
Theorem lite_parser_output_chars post :
  exists r,
    lite_parser cs ud post = Ok r /\
    Forall (fun c => allowed c = true \/ c = chr " ") r /\
    Forall (Forall (fun c => allowed c = true /\ c <> chr " ")) (str_split r).
Proof.
  exists (lite_parser_nosplit cs ud post).
  split; [apply lite_parser_eq |].
  split; [apply nosplit_clean |].
  eapply Forall_impl; [apply clean_words, nosplit_clean |].
  intros t [_ Ht]. eapply Forall_impl; [exact Ht |].
  intros c Hc. split; [assumption |]. intros ->. discriminate.
Qed.

(** C8.  The two reference posts of the specification. *)
Theorem lite_parser_reference_posts :
  lite_parser cs ud (str "Check out http://example.com now")
    = Ok (str "Check out #link now") /\
  lite_parser cs ud (str "@elonmusk said $TSLA will hit 100.5 today")
    = Ok (str "@mention said $cashtag will hit #number today").
Proof. split; vm_compute; reflexivity. Qed.

(** C10.  The string that [lite_parser] returns neither begins nor ends
    with white space, and a post of white space only, the empty post among
    them, gives the empty string. *)
Theorem lite_parser_stripped post :
  exists r,
    lite_parser cs ud post = Ok r /\
    (forall c, head r = Some c -> isspace c = false) /\
    (forall c, last r = Some c -> isspace c = false) /\
    (Forall (fun c => isspace c = true) post -> r = []).
Proof.
  exists (lite_parser_nosplit cs ud post).
  split; [apply lite_parser_eq |].
  unfold lite_parser_nosplit. repeat split.
  - intros c. apply str_strip_head.
  - intros c. apply str_strip_last.
  - intros H. rewrite html_unescape_id.
    + unfold str_split. now rewrite split_ws_spaces.
    + intros Hin. rewrite List.Forall_forall in H.
      specialize (H _ Hin). discriminate.
Qed.

(** C4, on the code: a word that is one digit, or one digit before a
    character that is no digit, is returned as it is. *)
Theorem lite_parser_single_digit :
  lite_parser cs ud (str "5") = Ok (str "5") /\
  lite_parser cs ud (str "5x") = Ok (str "5x") /\
  lite_parser cs ud (str "top 5 stocks") = Ok (str "top 5 stocks").
Proof. repeat split; vm_compute; reflexivity. Qed.

End Normaliser.

(** C1 fails on the code.  The filter turns the hyphen of [covid-19] into a
    space; the second run reads [19] as a word of its own and rewrites it. *)
Lemma lite_parser_not_idempotent :
  ~ (exists cs ud,
       bind (lite_parser cs ud (str "covid-19")) (lite_parser cs ud)
       = lite_parser cs ud (str "covid-19")) /\
  (forall cs ud, lite_parser cs ud (str "covid-19") = Ok (str "covid 19")) /\
  (forall cs ud, lite_parser cs ud (str "covid 19") = Ok (str "covid #number")).
Proof.
  split; [| split; intros cs ud; vm_compute; reflexivity].
  intros (cs & ud & H). vm_compute in H. discriminate.
Qed.

Lemma lite_parser_stripped_witness :
  lite_parser (fun s => s) (fun _ => false) [32; 9; 10; 160; 8195] = Ok [].
Proof.
  destruct (lite_parser_stripped (fun s => s) (fun _ => false)
              [32; 9; 10; 160; 8195]) as (r & Hr & _ & _ & Hws).
  rewrite Hr. f_equal. apply Hws. repeat constructor.
Defined.

(** ** The label tables *)

Local Open Scope Z_scope.

Ltac dict :=
  cbv [getitem xmap sent_map id2label dataset_label];
  rewrite ?list_to_map_cons, ?list_to_map_nil; cbn [fst snd];
  rewrite ?lookup_insert; repeat case_decide; subst; rewrite ?lookup_empty.

Lemma xmap_missing k :
  getitem xmap k = Raise (KeyError k) <->
  k <> str "neutral" /\ k <> str "positive" /\ k <> str "negative".
Proof.
  dict; (split; [intros Hk; try discriminate | intros (K1 & K2 & K3); congruence]).
  repeat split; congruence.
Qed.

(** C5.  [sent_map] is a bijection of the labels 0, 1, 2, defined on these
    three only, and it sends the label the sample file gives a sentiment to
    the identifier under which the classifier prints that sentiment. *)
Theorem sent_map_bijection_aligned :
  (forall d, is_Some (sent_map !! d) <-> d = 0 \/ d = 1 \/ d = 2) /\
  (forall m, (exists d, sent_map !! d = Some m) <-> m = 0 \/ m = 1 \/ m = 2) /\
  (forall d1 d2 m,
     sent_map !! d1 = Some m -> sent_map !! d2 = Some m -> d1 = d2) /\
  (forall d, d = 0 \/ d = 1 \/ d = 2 ->
     exists c m,
       dataset_label !! d = Some c /\ sent_map !! d = Some m /\
       id2label !! m = Some (label_str c)).
Proof.
  split; [| split; [| split]].
  - intros d. split.
    + intros [x Hx]. revert Hx. dict; intros Hx; try discriminate; lia.
    + intros [-> | [-> | ->]]; eexists; reflexivity.
  - intros m. split.
    + intros [d Hd]. revert Hd. dict; intros [= <-]; lia.
    + intros [-> | [-> | ->]]; [exists 1 | exists 0 | exists 2]; reflexivity.
  - intros d1 d2 m H1 H2. revert H1 H2. dict; congruence.
  - intros d [-> | [-> | ->]];
      [exists negative, 1 | exists positive, 0 | exists neutral, 2];
      repeat split; vm_compute; reflexivity.
Qed.

(** C6.  [xmap] is a bijection of the three sentiments and the labels
    0, 1, 2: every sentiment has a label, and the table read backwards
    sends that label to the sentiment again. *)
Theorem xmap_round_trip :
  (forall c, exists n,
     xmap !! label_str c = Some n /\ xmap_inv !! n = Some (label_str c)) /\
  (forall c1 c2, xmap !! label_str c1 = xmap !! label_str c2 -> c1 = c2) /\
  (forall n, (exists c, xmap !! label_str c = Some n) <-> n = 0 \/ n = 1 \/ n = 2) /\
  (forall k, is_Some (xmap !! k) <-> exists c, k = label_str c).
Proof.
  split; [| split; [| split]].
  - intros [| |]; [exists 1 | exists 0 | exists 2]; split; vm_compute; reflexivity.
  - intros [| |] [| |]; vm_compute; congruence.
  - intros n. split.
    + intros [[| |] Hc]; vm_compute in Hc; injection Hc as <-; lia.
    + intros [-> | [-> | ->]];
        [exists negative | exists positive | exists neutral]; reflexivity.
  - intros k. split.
    + intros [v Hv].
      destruct (decide (k = str "neutral")) as [-> | K1]; [now exists neutral |].
      destruct (decide (k = str "positive")) as [-> | K2]; [now exists positive |].
      destruct (decide (k = str "negative")) as [-> | K3]; [now exists negative |].
      assert (E : getitem xmap k = Raise (KeyError k)) by now apply xmap_missing.
      unfold getitem in E. rewrite Hv in E. discriminate.
    + intros [[| |] ->]; eexists; vm_compute; reflexivity.
Qed.

(** C7.  The lookup [xmap[label]] returns the number of the table on the
    three labels, and raises on every other string, for which it has no
    default; so does the list of predictions that holds such a string. *)
Theorem xmap_unrecognized_label :
  getitem xmap (str "neutral") = Ok 2 /\
  getitem xmap (str "positive") = Ok 1 /\
  getitem xmap (str "negative") = Ok 0 /\
  (forall k,
     getitem xmap k = Raise (KeyError k) <->
     k <> str "neutral" /\ k <> str "positive" /\ k <> str "negative") /\
  (forall k v,
     getitem xmap k = Ok v ->
     k = str "neutral" \/ k = str "positive" \/ k = str "negative") /\
  (forall k ls,
     k <> str "neutral" /\ k <> str "positive" /\ k <> str "negative" ->
     y_predict (k :: ls) = Raise (KeyError k)).
Proof.
  split; [reflexivity |]. split; [reflexivity |]. split; [reflexivity |].
  split; [exact xmap_missing |]. split.
  - intros k v. dict; intros Hk; try discriminate; auto.
  - intros k ls Hk. apply xmap_missing in Hk. cbn [y_predict]. now rewrite Hk.
Qed.

(** * Further properties of the notebook *)

Local Open Scope N_scope.

(** ** Word by word *)

Lemma split_ws_app w a : forall cur b,
  isspace w = true ->
  split_ws cur (a ++ w :: b) = split_ws cur a ++ split_ws [] b.
Proof.
  induction a as [|c a IH]; intros cur b Hw; simpl.
  - rewrite Hw. now destruct cur.
  - destruct (isspace c).
    + destruct cur; rewrite IH by assumption; reflexivity.
    + now apply IH.
Qed.

Lemma filter_strip_commute l :
  map str_strip (List.filter (fun z => (0 <? length (str_strip z))%nat) l) =
  List.filter nonempty (map str_strip l).
Proof.
  induction l as [|z l IH]; [reflexivity |].
  cbn [map List.filter]. unfold nonempty at 1.
  destruct (0 <? length (str_strip z))%nat; cbn [map]; now rewrite IH.
Qed.

Lemma str_join_stripped ts :
  Forall (fun t => t <> [] /\
                   (forall c, head t = Some c -> isspace c = false) /\
                   (forall c, last t = Some c -> isspace c = false)) ts ->
  str_strip (str_join (str " ") ts) = str_join (str " ") ts.
Proof.
  intros H. destruct ts as [|t ts]; [reflexivity |].
  assert (Hne : Forall (fun t : pystr => t <> []) (t :: ts))
    by (eapply Forall_impl; [exact H | now intros ? []]).
  rewrite List.Forall_forall in H.
  apply str_strip_id; intros c Hc.
  - destruct (H t (or_introl eq_refl)) as (Ht & Hh & _).
    apply Hh. eapply str_join_head; eassumption.
  - destruct (str_join_last _ _ _ _ Hne Hc) as (u & Hu & Hl).
    destruct (H u Hu) as (_ & _ & Hlast). now apply Hlast.
Qed.

Lemma filter_nonempty_stripped l :
  Forall (fun t => t <> [] /\
                   (forall c, head t = Some c -> isspace c = false) /\
                   (forall c, last t = Some c -> isspace c = false))
    (List.filter nonempty (map str_strip l)).
Proof.
  apply List.Forall_forall. intros t Ht.
  apply filter_In in Ht as [Hin Hne].
  apply in_map_iff in Hin as (z & <- & _).
  split; [| split].
  - intros E. rewrite E in Hne. discriminate.
  - apply str_strip_head.
  - apply str_strip_last.
Qed.

Lemma str_join_app sep l1 l2 :
  l1 <> [] -> l2 <> [] ->
  str_join sep (l1 ++ l2) = str_join sep l1 ++ sep ++ str_join sep l2.
Proof.
  intros H1 H2. induction l1 as [|x l1 IH]; [congruence |].
  destruct l1 as [|y l1].
  - cbn [app str_join]. now destruct l2.
  - change (str_join sep ((x :: y :: l1) ++ l2))
      with (x ++ sep ++ str_join sep ((y :: l1) ++ l2)).
    rewrite IH by discriminate.
    change (str_join sep (x :: y :: l1)) with (x ++ sep ++ str_join sep (y :: l1)).
    now rewrite <- !app_assoc.
Qed.

Lemma str_join_nonempty sep l :
  l <> [] -> Forall (fun t : pystr => t <> []) l -> str_join sep l <> [].
Proof.
  intros Hl H. destruct l as [|x l]; [congruence |].
  inversion H as [|? ? Hx _]; subst. cbn [str_join].
  destruct x; [congruence |]. now destruct l.
Qed.

Section WordWise.

Variable cs : pystr -> pystr.
Variable ud : N -> bool.

(** The result is made of the words of the post, each one rewritten,
    filtered and stripped by itself; the empty ones are dropped and the
    others joined by one space. *)
Lemma lite_parser_words post :
  lite_parser cs ud post =
  Ok (str_join (str " ")
        (List.filter nonempty
           (map (norm_word ud) (str_split (html_unescape cs post))))).
Proof.
  rewrite lite_parser_eq. f_equal. unfold lite_parser_nosplit.
  rewrite filter_strip_commute.
  match goal with
  | |- context [List.filter nonempty (map str_strip ?l)] =>
      pose proof (filter_nonempty_stripped l) as Hs;
      replace (map str_strip l)
        with (map (norm_word ud) (str_split (html_unescape cs post))) in *
        by (now rewrite !map_map)
  end.
  now apply str_join_stripped.
Qed.

(** X1.  Normalising goes word by word: for two posts without [&], the
    result of the one, white space and the other is the two results joined
    by a space, an empty result left out. *)
Theorem lite_parser_concat a b w :
  isspace w = true -> ~ In (chr "&") a -> ~ In (chr "&") b ->
  exists ra rb,
    lite_parser cs ud a = Ok ra /\ lite_parser cs ud b = Ok rb /\
    lite_parser cs ud (a ++ w :: b) =
    Ok (str_join (str " ") (List.filter nonempty [ra; rb])).
Proof.
  intros Hw Ha Hb.
  assert (Hab : ~ In (chr "&") (a ++ w :: b)).
  { intros Hin. apply in_app_or in Hin as [Hin | [E | Hin]]; auto.
    rewrite E in Hw. discriminate. }
  do 2 eexists. split; [apply lite_parser_words |].
  split; [apply lite_parser_words |].
  rewrite lite_parser_words, !html_unescape_id by assumption.
  f_equal. unfold str_split. rewrite split_ws_app by assumption.
  rewrite map_app, List.filter_app.
  set (la := List.filter nonempty (map (norm_word ud) (split_ws [] a))).
  set (lb := List.filter nonempty (map (norm_word ud) (split_ws [] b))).
  assert (Hne : forall l, Forall (fun t : pystr => t <> [])
                            (List.filter nonempty (map (norm_word ud) l))).
  { intros l. apply List.Forall_forall. intros t Ht.
    apply filter_In in Ht as [_ Ht]. intros ->. discriminate. }
  assert (Hj : forall l : list pystr,
             Forall (fun t : pystr => t <> []) l ->
             nonempty (str_join (str " ") l) = match l with [] => false | _ => true end).
  { intros l Hl. destruct l as [|x l]; [reflexivity |].
    pose proof (str_join_nonempty (str " ") (x :: l) ltac:(discriminate) Hl) as Hn.
    unfold nonempty. now destruct (str_join (str " ") (x :: l)). }
  cbn [List.filter]. rewrite !Hj by apply Hne.
  destruct la as [|x la]; [now destruct lb |].
  destruct lb as [|y lb]; [now rewrite app_nil_r |].
  now rewrite str_join_app by discriminate.
Qed.

End WordWise.

(** ** The number pattern without backtracking *)

Section NumberPattern.

Variable ud : N -> bool.

Lemma star_count (p : N -> bool) s : forall b,
  star p (match_here ud []) b s = Some (count_while p s).
Proof.
  induction s as [|c s IH]; intros b; [reflexivity |].
  simpl. destruct (p c); [now rewrite IH | reflexivity].
Qed.

Lemma match_digits b s :
  match_here ud [Plus Digit] b s =
  if (0 <? count_while (is_decimal ud) s)%nat
  then Some (count_while (is_decimal ud) s) else None.
Proof.
  destruct s as [|c s]; [reflexivity |].
  cbn [match_here cls_match count_while].
  destruct (is_decimal ud c); [| reflexivity].
  now rewrite star_count.
Qed.

Lemma decimal_not_dot c : is_decimal ud c = true -> (c =? chr ".") = false.
Proof.
  intros H. destruct (N.eqb_spec c (chr ".")) as [-> |]; [discriminate | reflexivity].
Qed.

Lemma match_dots_digits s : forall b,
  star (cls_match ud (Lit (chr "."))) (match_here ud [Plus Digit]) b s =
  let m := count_while (fun c => c =? chr ".") s in
  let k2 := count_while (is_decimal ud) (skipn m s) in
  if (0 <? k2)%nat then Some (m + k2)%nat else None.
Proof.
  induction s as [|c s IH]; intros b; [reflexivity |].
  cbn [star cls_match count_while].
  destruct (N.eqb_spec c (chr ".")) as [-> | Hc].
  - rewrite IH. cbn zeta. cbn [skipn].
    destruct (0 <? _)%nat; [reflexivity |].
    reflexivity.
  - rewrite match_digits. reflexivity.
Qed.

Lemma match_digits_dots_digits s :
  star (cls_match ud Digit) (match_here ud [Star (Lit (chr ".")); Plus Digit])
    false s =
  let j := count_while (is_decimal ud) s in
  let s1 := skipn j s in
  let m := count_while (fun c => c =? chr ".") s1 in
  let k2 := count_while (is_decimal ud) (skipn m s1) in
  if (0 <? k2)%nat then Some (j + m + k2)%nat
  else if (1 <=? j)%nat then Some j
  else None.
Proof.
  induction s as [|c s IH]; [reflexivity |].
  cbn [star cls_match count_while].
  destruct (is_decimal ud c) eqn:Hc.
  - rewrite IH. cbn zeta. cbn [skipn].
    destruct (0 <? _)%nat; [reflexivity |].
    destruct (count_while (is_decimal ud) s) as [|j] eqn:Ej; [| reflexivity].
    cbn [Nat.leb match_here]. rewrite match_dots_digits.
    cbn zeta. cbn [count_while]. rewrite (decimal_not_dot c Hc).
    cbn [skipn count_while]. now rewrite Hc, Ej.
  - cbn [match_here]. now rewrite match_dots_digits.
Qed.

(** X4.  The pattern ['^\d+\.*\d+'] replaces just the prefix that
    [number_prefix] measures: digits, dots and digits, the longest there
    are; or, when no digit follows the dots, the leading digits alone if
    they are two or more.  A lone leading digit is no match. *)
Theorem re_sub_number_prefix repl s :
  re_sub ud re_number repl s =
  match number_prefix ud s with
  | Some n => repl ++ skipn n s
  | None => s
  end.
Proof.
  unfold re_number. rewrite re_sub_anchored.
  assert (E : match_here ud [Plus Digit; Star (Lit (chr ".")); Plus Digit] true s
              = number_prefix ud s); [| now rewrite E].
  unfold number_prefix. destruct s as [|c s]; [reflexivity |].
  cbn [match_here cls_match count_while].
  destruct (is_decimal ud c); [| reflexivity].
  rewrite match_digits_dots_digits. cbn zeta. cbn [skipn].
  set (j := count_while (is_decimal ud) s).
  destruct (0 <? count_while _ _)%nat; [reflexivity |].
  cbn [andb Nat.ltb Nat.leb option_map]. now destruct j.
Qed.

End NumberPattern.

(** ** Placeholders and plain words *)

Section Placeholders.

Variable cs : pystr -> pystr.
Variable ud : N -> bool.

Example number_prefix_words :
  map (number_prefix ud)
    [str "100.5"; str "12."; str "5"; str "5.5"; str "1..5z"; str "x5"]
  = [Some 5; Some 2; None; Some 3; Some 4; None]%nat.
Proof. vm_compute. reflexivity. Qed.

Lemma nonspace_not_newline w :
  Forall (fun c => isspace c = false) w -> Forall (fun c => c <> 10) w.
Proof.
  intros H. eapply Forall_impl; [exact H |]. intros c Hc ->. discriminate.
Qed.

Lemma link_prefix : re_link = Bol :: map (fun a => One (Lit a)) (str "http") ++ [Star Dot].
Proof. reflexivity. Qed.

Lemma mention_prefix : re_mention = Bol :: map (fun a => One (Lit a)) (str "@") ++ [Star Dot].
Proof. reflexivity. Qed.

Lemma cashtag_prefix : re_cashtag = Bol :: map (fun a => One (Lit a)) (str "$") ++ [Star Dot].
Proof. reflexivity. Qed.

(** The four rewrites of a word, by its beginning. *)
Lemma uniform_by_prefix w :
  Forall (fun c => c <> 10) w ->
  uniform ud w =
  if starts_with (str "http") w then str "#link"
  else if starts_with (str "@") w then str "@mention"
  else if starts_with (str "$") w then str "$cashtag"
  else match number_prefix ud w with
       | Some n => str "#number" ++ skipn n w
       | None => w
       end.
Proof.
  intros Hw. unfold uniform.
  rewrite link_prefix, re_sub_prefix_dot by assumption.
  destruct (starts_with (str "http") w); [reflexivity |].
  rewrite mention_prefix, re_sub_prefix_dot by assumption.
  destruct (starts_with (str "@") w); [reflexivity |].
  rewrite cashtag_prefix, re_sub_prefix_dot by assumption.
  destruct (starts_with (str "$") w); [reflexivity |].
  apply re_sub_number_prefix.
Qed.

Lemma str_split_word w :
  w <> [] -> Forall (fun c => isspace c = false) w -> str_split w = [w].
Proof.
  intros Hne Hw. unfold str_split.
  pose proof (split_ws_word w [] [] Hw) as E. rewrite app_nil_r in E.
  rewrite E. simpl. now destruct w.
Qed.

(** X2.  A word that begins with [http], with [@] or with [$] is replaced
    as a whole by [#link], [@mention] or [$cashtag]: nothing of what
    follows the beginning is kept. *)
Theorem lite_parser_placeholders w :
  Forall (fun c => isspace c = false) w -> ~ In (chr "&") w ->
  lite_parser cs ud (str "http" ++ w) = Ok (str "#link") /\
  lite_parser cs ud (chr "@" :: w) = Ok (str "@mention") /\
  lite_parser cs ud (chr "$" :: w) = Ok (str "$cashtag").
Proof.
  intros Hw Hamp.
  assert (H : forall p r,
             Forall (fun c => isspace c = false) p -> ~ In (chr "&") p ->
             p <> [] -> uniform ud (p ++ w) = r ->
             str_strip (re_sub ud re_blunt (str " ") r) = r -> nonempty r = true ->
             lite_parser cs ud (p ++ w) = Ok r).
  { intros p r Hp Hpa Hne Hu Hr Hn.
    rewrite lite_parser_words, html_unescape_id
      by (intros Hin; apply in_app_or in Hin as [|]; auto).
    rewrite str_split_word;
      [| destruct p; [congruence | discriminate] | apply Forall_app; now split].
    cbn [map]. unfold norm_word. rewrite Hu, Hr.
    cbn [List.filter]. now rewrite Hn. }
  assert (Hnl : forall p, Forall (fun c => isspace c = false) p ->
                          Forall (fun c => c <> 10) (p ++ w)).
  { intros p Hp. apply nonspace_not_newline, Forall_app. now split. }
  repeat split.
  - apply H; try reflexivity; try discriminate.
    + repeat constructor.
    + intros [E | [E | [E | [E | []]]]]; discriminate.
    + rewrite uniform_by_prefix by (apply Hnl; repeat constructor). reflexivity.
  - apply (H [chr "@"]); try reflexivity; try discriminate.
    + repeat constructor.
    + intros [E | []]; discriminate.
    + rewrite uniform_by_prefix by (apply Hnl; repeat constructor). reflexivity.
  - apply (H [chr "$"]); try reflexivity; try discriminate.
    + repeat constructor.
    + intros [E | []]; discriminate.
    + rewrite uniform_by_prefix by (apply Hnl; repeat constructor). reflexivity.
Qed.

End Placeholders.

(** ** Posts of allowed characters *)

Section AllowedPosts.

Variable cs : pystr -> pystr.
Variable ud : N -> bool.

Lemma allowed_words_nonspace ts :
  Forall (fun t => t <> [] /\ Forall (fun c => allowed c = true) t) ts ->
  Forall (fun t => t <> [] /\ Forall (fun c => isspace c = false) t) ts.
Proof.
  intros H. eapply Forall_impl; [exact H |].
  intros t [Hne Ht]. split; [assumption |].
  eapply Forall_impl; [exact Ht |]. intros c. apply allowed_not_space.
Qed.

Lemma allowed_words_join ts :
  Forall (fun t => t <> [] /\ Forall (fun c => allowed c = true) t) ts ->
  Forall (fun c => isspace c = true \/ allowed c = true) (str_join (str " ") ts).
Proof.
  intros H. apply str_join_Forall; [repeat constructor; now left |].
  eapply Forall_impl; [exact H |].
  intros t [_ Ht]. eapply Forall_impl; [exact Ht |]. now right.
Qed.

(** The words of a post of allowed characters, and of its result. *)
Lemma allowed_post_words post :
  Forall (fun c => isspace c = true \/ allowed c = true) post ->
  Forall (fun t => t <> [] /\ Forall (fun c => allowed c = true) t)
    (str_split post) /\
  lite_parser cs ud post =
    Ok (str_join (str " ") (map (uniform ud) (str_split post))) /\
  str_split (str_join (str " ") (map (uniform ud) (str_split post))) =
    map (uniform ud) (str_split post).
Proof.
  intros H.
  assert (Hts : Forall (fun t => t <> [] /\ Forall (fun c => allowed c = true) t)
                  (str_split post)).
  { apply split_ws_Forall; [constructor |].
    eapply Forall_impl; [exact H |].
    intros c [Hc|Hc] Hsp; [congruence | assumption]. }
  split; [exact Hts |]. split; [now apply lite_parser_allowed_input |].
  apply str_split_join, allowed_words_nonspace, List.Forall_map.
  eapply Forall_impl; [exact Hts |]. intros t. apply uniform_allowed.
Qed.

(** Single-spaced words of allowed characters that the rewrites leave
    alone are a fixed point. *)
Lemma lite_parser_fixed_words ts :
  Forall (fun t => (t <> [] /\ Forall (fun c => allowed c = true) t) /\
                   uniform ud t = t) ts ->
  lite_parser cs ud (str_join (str " ") ts) = Ok (str_join (str " ") ts).
Proof.
  intros H. apply Forall_and in H as [Hw Hu].
  rewrite lite_parser_allowed_input by now apply allowed_words_join.
  rewrite str_split_join by now apply allowed_words_nonspace.
  do 2 f_equal. rewrite <- (map_id ts) at 2. apply map_ext_in.
  intros t Ht. rewrite List.Forall_forall in Hu. now apply Hu.
Qed.

(** X3.  Plain text is returned as it is: single-spaced words of allowed
    characters, none beginning with [http], [@], [$] or a match of the
    number pattern. *)
Theorem lite_parser_plain_text ts :
  Forall (fun t => t <> [] /\ Forall (fun c => allowed c = true) t /\
                   starts_with (str "http") t = false /\
                   starts_with (str "@") t = false /\
                   starts_with (str "$") t = false /\
                   number_prefix ud t = None) ts ->
  lite_parser cs ud (str_join (str " ") ts) = Ok (str_join (str " ") ts).
Proof.
  intros H. apply lite_parser_fixed_words.
  eapply Forall_impl; [exact H |].
  intros t (Hne & Ht & H1 & H2 & H3 & H4). split; [now split |].
  rewrite uniform_by_prefix by now apply allowed_not_newline.
  now rewrite H1, H2, H3, H4.
Qed.

(** X5.  The tokens added to the vocabulary are stable: a post of added
    tokens, single-spaced, is returned as it is. *)
Theorem lite_parser_added_tokens ts :
  Forall (fun t => In t added_tokens) ts ->
  lite_parser cs ud (str_join (str " ") ts) = Ok (str_join (str " ") ts).
Proof.
  intros H. apply lite_parser_fixed_words.
  eapply Forall_impl; [exact H |].
  intros t [<- | [<- | [<- | [<- | []]]]];
    (split; [split; [discriminate | repeat constructor] | reflexivity]).
Qed.

Lemma uniform_settled w :
  Forall (fun c => c <> 10) w ->
  starts_with (str "http") (uniform ud w) = false /\
  (starts_with (str "@") (uniform ud w) = true -> uniform ud w = str "@mention") /\
  (starts_with (str "$") (uniform ud w) = true -> uniform ud w = str "$cashtag") /\
  number_prefix ud (uniform ud w) = None.
Proof.
  intros Hw. rewrite uniform_by_prefix by assumption.
  destruct (starts_with (str "http") w) eqn:E1;
    [repeat split; try reflexivity; discriminate |].
  destruct (starts_with (str "@") w) eqn:E2;
    [repeat split; try reflexivity; discriminate |].
  destruct (starts_with (str "$") w) eqn:E3;
    [repeat split; try reflexivity; discriminate |].
  destruct (number_prefix ud w) as [n|] eqn:E4.
  - repeat split; try reflexivity; discriminate.
  - repeat split; try assumption; congruence.
Qed.

(** X6.  After a post of white space and allowed characters no link, user
    or ticker is left: no word of the result begins with [http] or with a
    match of the number pattern, and a word that begins with [@] or [$] is
    [@mention] or [$cashtag]. *)
Theorem lite_parser_no_leak post :
  Forall (fun c => isspace c = true \/ allowed c = true) post ->
  exists r,
    lite_parser cs ud post = Ok r /\
    Forall (fun t =>
              starts_with (str "http") t = false /\
              (starts_with (str "@") t = true -> t = str "@mention") /\
              (starts_with (str "$") t = true -> t = str "$cashtag") /\
              number_prefix ud t = None)
      (str_split r).
Proof.
  intros H. destruct (allowed_post_words post H) as (Hts & Hr & Hs).
  eexists. split; [exact Hr |]. rewrite Hs.
  apply List.Forall_map. eapply Forall_impl; [exact Hts |].
  intros t [_ Ht]. now apply uniform_settled, allowed_not_newline.
Qed.

Lemma uniform_nonempty w :
  w <> [] -> Forall (fun c => c <> 10) w -> uniform ud w <> [].
Proof.
  intros Hne Hw.
  destruct (uniform_cases ud w Hw) as [E|[E|[E|[[n E]|E]]]]; rewrite E;
    try discriminate. assumption.
Qed.

(** When the words, once rewritten, hold allowed characters only, the
    filter and the cleaning of blanks are idle: the result is the
    rewritten words joined by one space. *)
Lemma lite_parser_filter_idle post :
  Forall (fun t => Forall (fun c => allowed c = true) (uniform ud t))
    (str_split (html_unescape cs post)) ->
  Forall (fun u => (u <> [] /\ Forall (fun c => allowed c = true) u) /\
                   uniform ud u = u)
    (map (uniform ud) (str_split (html_unescape cs post))) /\
  lite_parser cs ud post =
    Ok (str_join (str " ")
          (map (uniform ud) (str_split (html_unescape cs post)))).
Proof.
  intros H.
  assert (Hu : Forall (fun u => (u <> [] /\ Forall (fun c => allowed c = true) u)
                                /\ uniform ud u = u)
                 (map (uniform ud) (str_split (html_unescape cs post)))).
  { apply List.Forall_map.
    pose proof (str_split_words (html_unescape cs post)) as Hw.
    revert H Hw. generalize (str_split (html_unescape cs post)).
    induction l as [|t l IH]; intros H Hw; [constructor |].
    inversion H as [|? ? Ht Hl]; inversion Hw as [|? ? [Hne Hs] Hwl]; subst.
    apply nonspace_not_newline in Hs.
    constructor; [| now apply IH].
    split; [split; [now apply uniform_nonempty | assumption] |].
    now apply uniform_idem. }
  split; [exact Hu |].
  apply Forall_and in Hu as [Ha _].
  rewrite lite_parser_eq. f_equal. unfold lite_parser_nosplit.
  rewrite !(map_map _ (re_sub ud re_blunt (str " "))).
  rewrite !map_map. fold (uniform ud).
  rewrite <- (map_map (uniform ud) (re_sub ud re_blunt (str " "))).
  rewrite blanks_allowed_words by assumption.
  now apply str_join_words_strip, allowed_words_nonspace.
Qed.

(** C1, amended.  [lite_parser] is idempotent at every post whose words,
    after [html.unescape] and the four rewrites, hold allowed characters
    only: the character filter then changes nothing, and the result is
    mapped to itself. *)
Theorem lite_parser_idempotent_filter_idle post :
  Forall (fun t => Forall (fun c => allowed c = true) (uniform ud t))
    (str_split (html_unescape cs post)) ->
  exists r, lite_parser cs ud post = Ok r /\ lite_parser cs ud r = Ok r.
Proof.
  intros H. destruct (lite_parser_filter_idle post H) as [Hu Hr].
  eexists. split; [exact Hr |]. now apply lite_parser_fixed_words.
Qed.

End AllowedPosts.

(** ** More on the label tables *)

Local Open Scope Z_scope.

Lemma xmap_range l y : xmap !! l = Some y -> 0 <= y <= 2.
Proof. dict; intros [= <-]; lia. Qed.

Lemma y_predict_cons l ls :
  y_predict (l :: ls) =
  match xmap !! l with
  | Some y => match y_predict ls with
              | Ok ys => Ok (y :: ys)
              | Raise e => Raise e
              end
  | None => Raise (KeyError l)
  end.
Proof.
  cbn [y_predict]. unfold getitem.
  destruct (xmap !! l); [| reflexivity]. cbn [bind].
  now destruct (y_predict ls).
Qed.

Lemma y_predict_Forall2 labels : forall ys,
  y_predict labels = Ok ys <->
  Forall2 (fun l y => xmap !! l = Some y) labels ys.
Proof.
  induction labels as [|l ls IH]; intros ys.
  - split; [intros [= <-]; constructor | intros Hf; now inversion Hf].
  - rewrite y_predict_cons. split.
    + destruct (xmap !! l) as [y|] eqn:El; [| discriminate].
      destruct (y_predict ls) as [ys'|e] eqn:Els; [| discriminate].
      intros [= <-]. constructor; [assumption | now apply IH].
    + intros Hf. inversion Hf as [|? y ? ys' Hy Hys]; subst.
      rewrite Hy. apply IH in Hys. now rewrite Hys.
Qed.

(** X8.  [y_predict] returns a list exactly when [xmap] has every label:
    the list then holds the numbers of the labels in their order, as many
    as there are labels and each one 0, 1 or 2. *)
Theorem y_predict_ok labels ys :
  (y_predict labels = Ok ys <->
   Forall2 (fun l y => xmap !! l = Some y) labels ys) /\
  (y_predict labels = Ok ys ->
   length ys = length labels /\ Forall (fun y => 0 <= y <= 2) ys).
Proof.
  split; [apply y_predict_Forall2 |].
  intros Hy. apply y_predict_Forall2 in Hy.
  induction Hy as [|l y ls ys' Hl _ [IHlen IHr]]; [now split |].
  split; [cbn [length]; congruence |].
  constructor; [now apply (xmap_range l) | assumption].
Qed.

(** X9.  [y_predict] raises exactly when some label is not in [xmap], and
    the error is the [KeyError] of the first such label. *)
Theorem y_predict_raises labels e :
  y_predict labels = Raise e <->
  exists known k rest,
    labels = known ++ k :: rest /\
    Forall (fun l => is_Some (xmap !! l)) known /\
    xmap !! k = None /\ e = KeyError k.
Proof.
  induction labels as [|l ls IH].
  - split; [discriminate |].
    intros (known & k & rest & E & _). now destruct known.
  - rewrite y_predict_cons. split.
    + destruct (xmap !! l) as [y|] eqn:El.
      * destruct (y_predict ls) as [ys|e'] eqn:Els; [discriminate |].
        intros [= ->]. destruct (proj1 IH eq_refl) as (known & k & rest & E & Hk & Hn & He).
        exists (l :: known), k, rest. subst ls.
        repeat split; try assumption. constructor; [now exists y | assumption].
      * intros [= <-]. exists [], l, ls. repeat split; [constructor | assumption].
    + intros (known & k & rest & E & Hk & Hn & ->).
      destruct known as [|l' known]; cbn [app] in E; injection E as -> ->.
      * now rewrite Hn.
      * inversion Hk as [|? ? Hy Hk']; subst. destruct Hy as [y Hy].
        rewrite Hy.
        assert (Hr : y_predict (known ++ k :: rest) = Raise (KeyError k)).
        { apply IH. exists known, k, rest. repeat split; assumption. }
        now rewrite Hr.
Qed.

(** X10.  [sent_map] is its own inverse: the table that sends the labels
    of the file to the identifiers of the classifier sends these back. *)
Theorem sent_map_involution d m :
  sent_map !! d = Some m -> sent_map !! m = Some d.
Proof.
  intros H.
  assert (Hd : d = 0 \/ d = 1 \/ d = 2)
    by (revert H; dict; intros E; try discriminate; lia).
  destruct Hd as [-> | [-> | ->]]; vm_compute in H; injection H as <-;
    reflexivity.
Qed.

Lemma sent_map_involution_witness :
  sent_map !! 1 = Some 0 /\ sent_map !! 0 = Some 1.
Proof.
  assert (H : sent_map !! 1 = Some 0) by reflexivity.
  split; [exact H | exact (sent_map_involution 1 0 H)].
Defined.

Lemma series_map_lookup d col : forall i : nat,
  series_map d col !! i =
  match col !! i with
  | Some (Some v) => Some (d !! v)
  | Some None => Some None
  | None => None
  end.
Proof.
  induction col as [|x col IH]; intros [|i]; try reflexivity.
  - now destruct x.
  - apply IH.
Qed.

Lemma sent_map_missing d : sent_map !! d = None <-> ~ (d = 0 \/ d = 1 \/ d = 2).
Proof.
  dict; split; intros Hd; try discriminate; try lia; try reflexivity;
    exfalso; apply Hd; auto.
Qed.

(** X11.  The column [df['label'].map(sent_map)] is as long as the column
    of labels; row by row it holds a NaN exactly where the label is
    missing or is none of 0, 1, 2, and the remapped label elsewhere. *)
Theorem series_map_rows col (i : nat) :
  length (series_map sent_map col) = length col /\
  (series_map sent_map col !! i = Some None <->
   col !! i = Some None \/
   exists d, col !! i = Some (Some d) /\ ~ (d = 0 \/ d = 1 \/ d = 2)) /\
  (forall m,
     series_map sent_map col !! i = Some (Some m) <->
     exists d, col !! i = Some (Some d) /\ sent_map !! d = Some m).
Proof.
  split; [apply length_map |].
  rewrite series_map_lookup.
  destruct (col !! i) as [[d|]|]; split.
  - split.
    + intros [= E]. right. exists d. split; [reflexivity |].
      now apply sent_map_missing.
    + intros [E | (d' & [= <-] & E)]; [discriminate |].
      apply sent_map_missing in E. now rewrite E.
  - intros m. split.
    + intros [= E]. now exists d.
    + intros (d' & [= <-] & E). now rewrite E.
  - split; [now left | reflexivity].
  - intros m. split; [discriminate | now intros (d & E & _)].
  - split; [discriminate | intros [E | (d & E & _)]; discriminate].
  - intros m. split; [discriminate | now intros (d & E & _)].
Qed.

(** X12.  The labels of the file come back from a classifier that is
    right: a column of labels 0, 1, 2 is remapped by [sent_map] without
    NaN, and when the classifier prints for each remapped identifier the
    label that [id2label] gives it, [y_predict] returns the column. *)
Theorem labels_round_trip col :
  Forall (fun d => d = 0 \/ d = 1 \/ d = 2) col ->
  exists ids labels,
    series_map sent_map (map Some col) = map Some ids /\
    Forall2 (fun m l => id2label !! m = Some l) ids labels /\
    y_predict labels = Ok col.
Proof.
  induction 1 as [|d col Hd _ (ids & labels & Hs & Hl & Hy)].
  - exists [], []. repeat split. constructor.
  - assert (Hd' : exists m l, sent_map !! d = Some m /\ id2label !! m = Some l /\
                              xmap !! l = Some d).
    { destruct Hd as [-> | [-> | ->]];
        [exists 1, (str "negative") | exists 0, (str "positive")
         | exists 2, (str "neutral")]; repeat split. }
    destruct Hd' as (m & l & Hm & Hml & Hx).
    exists (m :: ids), (l :: labels). split; [| split].
    + unfold series_map in *. cbn [map]. now rewrite Hm, Hs.
    + now constructor.
    + rewrite y_predict_cons, Hx, Hy. reflexivity.
Qed.

Lemma labels_round_trip_witness :
  Forall (fun d => d = 0 \/ d = 1 \/ d = 2) [0; 1; 2; 1] /\
  exists ids labels,
    series_map sent_map (map Some [0; 1; 2; 1]) = map Some ids /\
    Forall2 (fun m l => id2label !! m = Some l) ids labels /\
    y_predict labels = Ok [0; 1; 2; 1].
Proof.
  assert (H : Forall (fun d => d = 0 \/ d = 1 \/ d = 2) [0; 1; 2; 1])
    by (repeat constructor; lia).
  split; [exact H | exact (labels_round_trip _ H)].
Defined.

(** ** Instances *)

Local Open Scope N_scope.

Ltac no_amp := let H := fresh in intros H; simpl in H; intuition discriminate.

(** Behind a character that the filter removes, a user name is kept: the
    rewrites look at the beginning of the word only. *)
Example lite_parser_mention_in_brackets cs ud :
  lite_parser cs ud (str "(@elonmusk)") = Ok (str "@elonmusk").
Proof. vm_compute. reflexivity. Qed.

Lemma lite_parser_concat_witness :
  exists ra rb,
    lite_parser (fun s => s) (fun _ => false) (str "buy $TSLA") = Ok ra /\
    lite_parser (fun s => s) (fun _ => false) (str "now!") = Ok rb /\
    lite_parser (fun s => s) (fun _ => false) (str "buy $TSLA" ++ 10 :: str "now!") =
    Ok (str_join (str " ") (List.filter nonempty [ra; rb])).
Proof.
  apply (lite_parser_concat (fun s => s) (fun _ => false)
           (str "buy $TSLA") (str "now!") 10); [reflexivity | no_amp | no_amp].
Defined.

Lemma lite_parser_placeholders_witness :
  lite_parser (fun s => s) (fun _ => false) (str "http" ++ str "s://t.co/x?y=1")
    = Ok (str "#link") /\
  lite_parser (fun s => s) (fun _ => false) (chr "@" :: str "s://t.co/x?y=1")
    = Ok (str "@mention") /\
  lite_parser (fun s => s) (fun _ => false) (chr "$" :: str "s://t.co/x?y=1")
    = Ok (str "$cashtag").
Proof.
  apply (lite_parser_placeholders (fun s => s) (fun _ => false)
           (str "s://t.co/x?y=1")); [repeat constructor | no_amp].
Defined.

Lemma lite_parser_plain_text_witness :
  lite_parser (fun s => s) (fun _ => false)
    (str_join (str " ") [str "stocks"; str "rally,"; str "hold!"])
  = Ok (str_join (str " ") [str "stocks"; str "rally,"; str "hold!"]).
Proof.
  apply (lite_parser_plain_text (fun s => s) (fun _ => false)).
  repeat (constructor;
          [split; [discriminate | split; [repeat constructor | repeat split]] |]).
  constructor.
Defined.

Lemma lite_parser_added_tokens_witness :
  lite_parser (fun s => s) (fun _ => false)
    (str_join (str " ") [str "$cashtag"; str "#number"; str "#link"])
  = Ok (str_join (str " ") [str "$cashtag"; str "#number"; str "#link"]).
Proof.
  apply (lite_parser_added_tokens (fun s => s) (fun _ => false)).
  repeat (constructor; [simpl; tauto |]).
  constructor.
Defined.

Lemma lite_parser_no_leak_witness :
  exists r,
    lite_parser (fun s => s) (fun _ => false)
      (str "@bob says $TSLA httpx 42 up") = Ok r /\
    Forall (fun t =>
              starts_with (str "http") t = false /\
              (starts_with (str "@") t = true -> t = str "@mention") /\
              (starts_with (str "$") t = true -> t = str "$cashtag") /\
              number_prefix (fun _ => false) t = None)
      (str_split r).
Proof.
  apply (lite_parser_no_leak (fun s => s) (fun _ => false)).
  repeat (constructor; [first [left; reflexivity | right; reflexivity] |]).
  constructor.
Defined.

Lemma lite_parser_idempotent_filter_idle_witness :
  exists r,
    lite_parser (fun s => s) (fun _ => false)
      (str "Check out http://example.com now") = Ok r /\
    lite_parser (fun s => s) (fun _ => false) r = Ok r.
Proof.
  apply (lite_parser_idempotent_filter_idle (fun s => s) (fun _ => false)).
  vm_compute. repeat constructor.
Defined.

(** ** [html.unescape] and the calls that can raise *)

Lemma take_while_forallb p s : forallb p (take_while p s) = true.
Proof.
  induction s as [|c s IH]; [reflexivity |].
  simpl. destruct (p c) eqn:E; [| reflexivity]. simpl. now rewrite E.
Qed.

Lemma drop_while_head (p : N -> bool) s :
  (forall c, head s = Some c -> p c = false) -> drop_while p s = s.
Proof.
  destruct s as [|c s]; [reflexivity |].
  intros H. simpl. now rewrite (H c eq_refl).
Qed.

(** [.rstrip(';')] takes the [;] that the pattern let through, and nothing
    of the digits before it. *)
Lemma rstrip_char_opt_semi ds u :
  forallb (fun c => negb (c =? chr ";")) ds = true ->
  rstrip_char (chr ";") (ds ++ opt_semi u) = ds.
Proof.
  intros H.
  assert (Hd : drop_while (N.eqb (chr ";")) (rev ds) = rev ds).
  { apply drop_while_head. intros c Hc.
    rewrite head_rev_last in Hc. apply last_Some_elem_of, list_elem_of_In in Hc.
    rewrite forallb_forall in H. specialize (H c Hc).
    rewrite N.eqb_sym. now destruct (c =? chr ";"). }
  unfold rstrip_char, opt_semi. destruct u as [|c u].
  - now rewrite app_nil_r, Hd, rev_involutive.
  - destruct (N.eqb_spec c (chr ";")) as [-> |].
    + rewrite rev_app_distr. cbn [rev app drop_while].
      rewrite N.eqb_refl. now rewrite Hd, rev_involutive.
    + now rewrite app_nil_r, Hd, rev_involutive.
Qed.

Lemma digit_not_semi ds :
  forallb is_ascii_digit ds = true ->
  forallb (fun c => negb (c =? chr ";")) ds = true.
Proof.
  rewrite !forallb_forall. intros H c Hc. specialize (H c Hc).
  destruct (N.eqb_spec c (chr ";")) as [-> |]; [discriminate | reflexivity].
Qed.

Lemma hex_not_semi ds :
  forallb is_hex_digit ds = true ->
  forallb (fun c => negb (c =? chr ";")) ds = true.
Proof.
  rewrite !forallb_forall. intros H c Hc. specialize (H c Hc).
  destruct (N.eqb_spec c (chr ";")) as [-> |]; [discriminate | reflexivity].
Qed.

Lemma digit_not_x c :
  is_ascii_digit c = true -> (c =? chr "x") || (c =? chr "X") = false.
Proof.
  intros H. destruct (N.eqb_spec c (chr "x")) as [-> |]; [discriminate |].
  destruct (N.eqb_spec c (chr "X")) as [-> |]; [discriminate | reflexivity].
Qed.

Section UnescapeRuns.

Variable html5 : gmap pystr pystr.
Variable ic : gmap N pystr.
Variable icp : N -> bool.
Variable limit : option nat.

(** [chr] is called below its bound only. *)
Lemma numeric_charref_ok num : exists r, numeric_charref ic icp num = Ok r.
Proof.
  unfold numeric_charref. destruct (ic !! num); [eauto |].
  destruct (_ || _) eqn:E; [eauto |].
  destruct (icp num); [eauto |].
  unfold py_chr. apply Bool.orb_false_iff in E as [_ E].
  apply N.ltb_ge in E. apply N.leb_le in E. rewrite E. eauto.
Qed.

Lemma py_int10_ok ds :
  ds <> [] -> forallb is_ascii_digit ds = true ->
  within_limit limit (length ds) = true ->
  py_int10 limit ds = Ok (int_of_digits 10 ds).
Proof.
  intros Hne Hd Hl. unfold py_int10. rewrite Hd, Hl.
  destruct ds; [congruence | reflexivity].
Qed.

Lemma py_int16_ok ds :
  ds <> [] -> forallb is_hex_digit ds = true ->
  py_int16 ds = Ok (int_of_digits 16 ds).
Proof.
  intros Hne Hd. unfold py_int16. rewrite Hd.
  destruct ds; [congruence | reflexivity].
Qed.

Lemma name_after_hash r :
  firstn 32 (take_while is_name_char (chr "#" :: r)) = [].
Proof. reflexivity. Qed.

(** [_replace_charref] returns on every text that the pattern lets
    through, when its decimal digits are within the limit. *)
Lemma replace_charref_group s g :
  charref_group s = Some g ->
  (forall r, s = chr "#" :: r ->
             within_limit limit (length (take_while is_ascii_digit r)) = true) ->
  exists r, replace_charref html5 ic icp limit g = Ok r.
Proof.
  unfold charref_group. destruct s as [|c r]; [discriminate |].
  destruct (N.eqb_spec c (chr "#")) as [-> | Hc].
  - intros Hg Hl. specialize (Hl r eq_refl).
    rewrite name_after_hash in Hg.
    pose proof (take_while_forallb is_ascii_digit r) as Hd.
    destruct (take_while is_ascii_digit r) as [|d ds] eqn:Ed.
    + destruct r as [|x r']; [discriminate |].
      destruct ((x =? chr "x") || (x =? chr "X")) eqn:Ex; [| discriminate].
      pose proof (take_while_forallb is_hex_digit r') as Hh.
      destruct (take_while is_hex_digit r') as [|h hs] eqn:Eh; [discriminate |].
      apply (inj Some) in Hg. subst g.
      cbn [replace_charref]. change (chr "#" =? chr "#") with true. cbn iota.
      rewrite Ex, rstrip_char_opt_semi by now apply hex_not_semi.
      rewrite py_int16_ok by (try discriminate; assumption).
      cbn [bind]. apply numeric_charref_ok.
    + apply (inj Some) in Hg. subst g.
      cbn [replace_charref app]. change (chr "#" =? chr "#") with true. cbn iota.
      assert (Hdx : (d =? chr "x") || (d =? chr "X") = false).
      { apply digit_not_x. simpl in Hd. now apply andb_prop in Hd as [Hd _]. }
      rewrite Hdx.
      change (d :: ds ++ opt_semi (skipn (length (d :: ds)) r))
        with ((d :: ds) ++ opt_semi (skipn (length (d :: ds)) r)).
      rewrite rstrip_char_opt_semi by now apply digit_not_semi.
      rewrite py_int10_ok by (try discriminate; assumption).
      cbn [bind]. apply numeric_charref_ok.
  - intros Hg _.
    destruct (firstn 32 (take_while is_name_char (c :: r))) as [|a name] eqn:En;
      [discriminate |].
    apply (inj Some) in Hg. subst g.
    assert (a = c) as ->.
    { simpl in En. destruct (is_name_char c); [| discriminate].
      now injection En. }
    cbn [replace_charref app]. destruct (N.eqb_spec c (chr "#")); [contradiction |].
    destruct (html5 !! _); eauto.
Qed.

Lemma charref_sub_run_ok s : forall skip,
  short_refs limit s = true ->
  exists r, charref_sub_run html5 ic icp limit skip s = Ok r.
Proof.
  induction s as [|c s IH]; intros skip Hs; [simpl; eauto |].
  cbn [short_refs] in Hs. apply andb_prop in Hs as [Hc Hs].
  cbn [charref_sub_run]. destruct skip as [|k]; [| now apply IH].
  destruct (if c =? chr "&" then charref_group s else None) as [g|] eqn:Eg.
  - destruct (c =? chr "&"); [| discriminate].
    destruct (replace_charref_group s g Eg) as [r Hr].
    { intros r ->. exact Hc. }
    destruct (IH (length g) Hs) as [rest Hrest].
    rewrite Hr, Hrest. cbn [bind]. eauto.
  - destruct (IH O Hs) as [rest Hrest]. rewrite Hrest. cbn [bind]. eauto.
Qed.

Lemma html_unescape_run_ok s :
  short_refs limit s = true ->
  exists p, html_unescape_run html5 ic icp limit s = Ok p.
Proof.
  intros H. unfold html_unescape_run.
  destruct (existsb _ s); [now apply charref_sub_run_ok | eauto].
Qed.

End UnescapeRuns.

(** What [html_unescape_run] returns is what [lite_parser] is given for
    [html.unescape(post)] in [lite_parser_run]. *)
Lemma html_unescape_run_agrees html5 ic icp limit s p :
  html_unescape_run html5 ic icp limit s = Ok p ->
  html_unescape (fun _ => p) s = p.
Proof.
  unfold html_unescape_run, html_unescape.
  destruct (existsb _ s); [reflexivity | now intros [= ->]].
Qed.

Lemma short_refs_no_limit s : short_refs None s = true.
Proof.
  induction s as [|c s IH]; [reflexivity |].
  cbn [short_refs]. rewrite IH, Bool.andb_true_r.
  destruct (c =? chr "&"); [| reflexivity].
  destruct s as [|h r]; [reflexivity |]. now destruct (h =? chr "#").
Qed.

Section Runs.

Variable html5 : gmap pystr pystr.
Variable ic : gmap N pystr.
Variable icp : N -> bool.
Variable ud : N -> bool.

(** C9, amended.  [lite_parser] returns a string on every post in which no
    [&#] is followed by more decimal digits than [int] takes, and so on
    every post where [int] has no limit, as on the interpreter of the
    notebook; the calls of [chr], [int] and the indexing in
    [html.unescape] do not raise there, and nothing raises after it.  Two
    runs on one post give one result. *)
Theorem lite_parser_run_returns limit post :
  (short_refs limit post = true ->
   exists r, lite_parser_run html5 ic icp limit ud post = Ok r) /\
  (exists r, lite_parser_run html5 ic icp None ud post = Ok r) /\
  (forall r1 r2,
     lite_parser_run html5 ic icp limit ud post = r1 ->
     lite_parser_run html5 ic icp limit ud post = r2 -> r1 = r2).
Proof.
  assert (H : forall l, short_refs l post = true ->
                        exists r, lite_parser_run html5 ic icp l ud post = Ok r).
  { intros l Hl. unfold lite_parser_run.
    destruct (html_unescape_run_ok html5 ic icp l post Hl) as [p Hp].
    rewrite Hp. cbn [bind]. eexists. apply lite_parser_eq. }
  split; [apply H |]. split; [apply H, short_refs_no_limit |].
  intros r1 r2 H1 H2. congruence.
Qed.

End Runs.

(** C9 fails where [int] has its limit of 4300 digits: the decimal
    character reference of 4301 digits makes [html.unescape], and with it
    [lite_parser], raise [ValueError]. *)
Lemma lite_parser_run_raises :
  ~ (exists html5 ic icp ud r,
       lite_parser_run html5 ic icp (Some 4300%nat) ud
         (str "&#" ++ List.repeat (chr "1") 4301) = Ok r).
Proof.
  intros (html5 & ic & icp & ud & r & H). vm_compute in H. discriminate.
Qed.

Lemma lite_parser_run_returns_witness :
  exists r,
    lite_parser_run {[ str "amp;" := str "&" ]} ∅ (fun _ => false)
      (Some 4300%nat) (fun _ => false) (str "AT&amp;T up &#36;5 &#x41;") = Ok r.
Proof.
  apply (lite_parser_run_returns {[ str "amp;" := str "&" ]} ∅ (fun _ => false)
           (fun _ => false) (Some 4300%nat) (str "AT&amp;T up &#36;5 &#x41;")).
  reflexivity.
Defined.
